(** * Prompt server: store, HTTP handlers, broadcast and heartbeat

    A shallow embedding of [server.js]: the [prompts] table and the SQL
    statements the handlers run, the six HTTP handlers, the WebSocket
    connection handling, [broadcast], and the heartbeat interval.

    Conventions of the embedding.
    - A request field is a JS value of the documented request shape: a
      string, [null], or absent ([undefined]).
    - A TEXT column holds a [string]; a nullable one an [option string].
    - [CURRENT_TIMESTAMP] has a resolution of one second; timestamps are
      kept as the number of seconds since the server clock's origin (the
      text form 'YYYY-MM-DD HH:MM:SS' that SQLite stores orders the same
      way).
    - The driver binds [undefined] and [null] as SQL NULL. A failing
      statement throws; the handlers' [try]/[catch] turns that into a 500.
    - The WebSocket library is ws 4 or later, the releases that go with the
      driver's [db.transaction(fn)]: the third parameter of [ping] is a
      callback there, so [ws.ping(null, false, true)] throws.
    - [JSON.stringify] is not interpreted: the payload it returns is
      represented by the message it encodes.
    - What the server does to the outside (serializing, sending a frame,
      pinging, terminating a socket) is recorded, in order and with the
      clock's reading, in a log carried by the server state. *)

From Stdlib Require Import List String Ascii NArith ZArith Bool Lia.
From Stdlib Require Import Sorted Permutation.
Import ListNotations.
Local Open Scope string_scope.
Local Open Scope list_scope.

(** ** Request values *)

Inductive jsval : Type :=
| JUndefined
| JNull
| JString (s : string).

(** JS truthiness, as used by [!title], [!content] and
    [category || 'General']. *)
Definition truthy (v : jsval) : bool :=
  match v with
  | JString s => negb (s =? EmptyString)
  | _ => false
  end.

(** [v || d] *)
Definition js_or (v : jsval) (d : string) : jsval :=
  if truthy v then v else JString d.

(** Binding a JS value to a statement parameter: NULL or a text. *)
Definition bind (v : jsval) : option string :=
  match v with
  | JString s => Some s
  | _ => None
  end.

(** [parseInt(req.params.id)]: an integer, or NaN ([None]). *)
Definition parsed_id : Type := option Z.

(** ** The prompts table *)

Record prompt : Type := {
  id : Z;
  title : string;
  content : string;
  category : option string;
  created_at : N;
  updated_at : N
}.

(** Rows are kept in rowid order, the order of a table scan.
    [sqlite_sequence] is the largest rowid AUTOINCREMENT has handed out. *)
Record database : Type := {
  rows : list prompt;
  sqlite_sequence : Z
}.

Definition empty_database : database :=
  {| rows := []; sqlite_sequence := 0 |}.

Inductive exn : Type :=
| SQLITE_CONSTRAINT_NOTNULL
| TypeError.

Inductive outcome (A : Type) : Type :=
| Returns (a : A)
| Throws (e : exn).
Arguments Returns {A} a.
Arguments Throws {A} e.

Definition obind {A B : Type} (m : outcome A) (k : A -> outcome B)
  : outcome B :=
  match m with
  | Returns a => k a
  | Throws e => Throws e
  end.

Notation "x <- m ;; k" := (obind m (fun x => k))
  (at level 61, m at next level, right associativity).

(** [INSERT INTO prompts (title, content, category) VALUES (?, ?, ?)] run at
    timestamp [ts]; returns [lastInsertRowid]. The new rowid is one more
    than the AUTOINCREMENT counter, which no row of the table exceeds
    ([db_wf] below). *)
Definition insert_run (t c cat : jsval) (ts : N) (d : database)
  : outcome (Z * database) :=
  match bind t, bind c with
  | Some t', Some c' =>
      let rowid := (sqlite_sequence d + 1)%Z in
      Returns (rowid,
               {| rows := rows d ++
                          [{| id := rowid; title := t'; content := c';
                              category := bind cat;
                              created_at := ts; updated_at := ts |}];
                  sqlite_sequence := rowid |})
  | _, _ => Throws SQLITE_CONSTRAINT_NOTNULL
  end.

(** [SELECT * FROM prompts WHERE id = ?] with [.get]. *)
Definition select_by_id (i : Z) (d : database) : option prompt :=
  find (fun p => (id p =? i)%Z) (rows d).

(** [.get(id)] for the parsed route parameter: NaN matches no row. *)
Definition select_by_param (i : parsed_id) (d : database) : option prompt :=
  match i with
  | Some z => select_by_id z d
  | None => None
  end.

(** [SELECT * FROM prompts] with [.all]. *)
Definition select_all (d : database) : list prompt := rows d.

Fixpoint insert_desc (p : prompt) (l : list prompt) : list prompt :=
  match l with
  | [] => [p]
  | q :: r =>
      if (updated_at q <=? updated_at p)%N then p :: l
      else q :: insert_desc p r
  end.

(** [SELECT * FROM prompts ORDER BY updated_at DESC] with [.all]. *)
Definition select_ordered (d : database) : list prompt :=
  fold_right insert_desc [] (rows d).

(** [SELECT COUNT( * ) AS count FROM prompts] *)
Definition select_count (d : database) : nat := List.length (rows d).

Definition matches (i : parsed_id) (p : prompt) : bool :=
  match i with
  | Some z => (id p =? z)%Z
  | None => false
  end.

(** [UPDATE prompts SET title = ?, content = ?, category = ? WHERE id = ?]
    followed, for each changed row, by the trigger
    [update_prompts_timestamp]; returns [changes]. *)
Definition update_run (t c cat : jsval) (i : parsed_id) (ts : N) (d : database)
  : outcome (nat * database) :=
  match filter (matches i) (rows d) with
  | [] => Returns (0, d)
  | hit =>
      match bind t, bind c with
      | Some t', Some c' =>
          Returns (List.length hit,
                   {| rows := map (fun p =>
                                if matches i p
                                then {| id := id p; title := t'; content := c';
                                        category := bind cat;
                                        created_at := created_at p;
                                        updated_at := ts |}
                                else p) (rows d);
                      sqlite_sequence := sqlite_sequence d |})
      | _, _ => Throws SQLITE_CONSTRAINT_NOTNULL
      end
  end.

(** [DELETE FROM prompts WHERE id = ?] *)
Definition delete_run (i : parsed_id) (d : database) : database :=
  {| rows := filter (fun p => negb (matches i p)) (rows d);
     sqlite_sequence := sqlite_sequence d |}.

(** An element of the array posted to the import route: [null], or a value
    whose [title], [content] and [category] properties are read. *)
Inductive import_row : Type :=
| RowNull
| RowObject (r_title r_content r_category : jsval).

Inductive import_body : Type :=
| NotArray
| ArrayBody (newPrompts : list import_row).

(** The body of the [insertMany] transaction: the loop over the rows. *)
Fixpoint insert_each (prompts : list import_row) (ts : N) (d : database)
  : outcome database :=
  match prompts with
  | [] => Returns d
  | RowNull :: _ => Throws TypeError
  | RowObject t c cat :: rest =>
      r <- insert_run t c (js_or cat "General") ts d ;;
      insert_each rest ts (snd r)
  end.

(** [db.transaction(...)]: a throw inside rolls every insert back. *)
Definition insertMany (prompts : list import_row) (ts : N) (d : database)
  : outcome database :=
  insert_each prompts ts d.

(** The sample rows added at startup when the table is empty. *)
Definition seed (ts : N) (d : database) : database :=
  if (select_count d =? 0)%nat then
    match
      (r1 <- insert_run (JString "翻译助手") (JString "将以下英文翻译成中文：")
                        (JString "工具") ts d ;;
       r2 <- insert_run (JString "写作助手")
                        (JString "请帮助我写一篇关于{主题}的文章，要求：")
                        (JString "创作") ts (snd r1) ;;
       insert_run (JString "代码助手") (JString "请解释以下代码的功能：")
                  (JString "开发") ts (snd r2))
    with
    | Returns r3 => snd r3
    | Throws _ => d
    end
  else d.

(** ** Messages, sockets and the server state *)

(** The envelopes [{type, data}] the server sends. *)
Inductive message : Type :=
| initial_data (data : list prompt)
| prompt_created (data : option prompt)
| prompt_updated (data : option prompt)
| prompt_deleted (data_id : parsed_id)
| prompts_imported (data_count : nat).

(** The string [JSON.stringify] returns for a message. *)
Inductive payload : Type :=
| Json (m : message).

Definition JSON_stringify (m : message) : payload := Json m.

Inductive ready_state : Type := CONNECTING | OPEN | CLOSING | CLOSED.

Definition is_open (s : ready_state) : bool :=
  match s with OPEN => true | _ => false end.

(** A server-side WebSocket: which connection it is, its [readyState] and
    the [isAlive] flag the connection handler installs. *)
Record websocket : Type := {
  sock : nat;
  readyState : ready_state;
  isAlive : bool
}.

(** What the server does to the outside: a call of [JSON.stringify], a
    frame sent on a socket, a ping, a [terminate]. *)
Inductive effect : Type :=
| Stringify (m : message)
| Send (c : nat) (data : payload)
| Ping (c : nat)
| Terminate (c : nat).

Definition heartbeat_period : N := 30000.

Record world : Type := {
  now : N;                        (* milliseconds since the server started *)
  next_beat : N;                  (* when the interval timer is next due *)
  db : database;
  wss_clients : list websocket;   (* wss.clients, in insertion order *)
  clients : list nat;             (* the handler's own Set *)
  next_sock : nat;
  log : list (N * effect)
}.

Definition CURRENT_TIMESTAMP (w : world) : N := (now w / 1000)%N.

Definition set_db (d : database) (w : world) : world :=
  {| now := now w; next_beat := next_beat w; db := d;
     wss_clients := wss_clients w; clients := clients w;
     next_sock := next_sock w; log := log w |}.

Definition set_now (t : N) (w : world) : world :=
  {| now := t; next_beat := next_beat w; db := db w;
     wss_clients := wss_clients w; clients := clients w;
     next_sock := next_sock w; log := log w |}.

Definition set_wss_clients (l : list websocket) (w : world) : world :=
  {| now := now w; next_beat := next_beat w; db := db w;
     wss_clients := l; clients := clients w;
     next_sock := next_sock w; log := log w |}.

Definition set_clients (l : list nat) (w : world) : world :=
  {| now := now w; next_beat := next_beat w; db := db w;
     wss_clients := wss_clients w; clients := l;
     next_sock := next_sock w; log := log w |}.

Definition stamp (t : N) (es : list effect) : list (N * effect) :=
  map (fun e => (t, e)) es.

Definition emit (es : list effect) (w : world) : world :=
  {| now := now w; next_beat := next_beat w; db := db w;
     wss_clients := wss_clients w; clients := clients w;
     next_sock := next_sock w; log := log w ++ stamp (now w) es |}.

(** The callback [broadcast] runs on each member of [wss.clients]. *)
Definition send_if_open (messageString : payload) (w : world)
    (client : websocket) : world :=
  if is_open (readyState client)
  then emit [Send (sock client) messageString] w
  else w.

(** [broadcast(message)]: one [JSON.stringify], then, for each member of
    [wss.clients], a [send] of that string if its [readyState] is OPEN. *)
Definition broadcast (msg : message) (w : world) : world :=
  let messageString := JSON_stringify msg in
  fold_left (send_if_open messageString) (wss_clients w)
            (emit [Stringify msg] w).

(** ** HTTP handlers *)

Inductive response_body : Type :=
| ErrorBody (error : string)
| SuccessBody
| SuccessId (new_id : Z)
| SuccessCount (count : nat)
| PromptsBody (prompts : list prompt).

Record response : Type := {
  status : nat;
  body : response_body
}.

Definition respond (s : nat) (b : response_body) : response :=
  {| status := s; body := b |}.

(** [app.get('/api/prompts')] *)
Definition get_prompts (w : world) : response * world :=
  (respond 200 (PromptsBody (select_ordered (db w))), w).

(** [app.post('/api/prompts')] *)
Definition post_prompt (t c cat : jsval) (w : world) : response * world :=
  if negb (truthy t) || negb (truthy c) then
    (respond 400 (ErrorBody "标题和内容不能为空"), w)
  else
    match insert_run t c (js_or cat "General") (CURRENT_TIMESTAMP w) (db w) with
    | Returns (lastInsertRowid, d') =>
        let newPrompt := select_by_id lastInsertRowid d' in
        let w' := broadcast (prompt_created newPrompt) (set_db d' w) in
        (respond 201 (SuccessId lastInsertRowid), w')
    | Throws _ => (respond 500 (ErrorBody "创建提示词失败"), w)
    end.

(** [app.post('/api/prompts/import')] *)
Definition import_prompts (b : import_body) (w : world) : response * world :=
  match b with
  | NotArray => (respond 400 (ErrorBody "无效的数据格式"), w)
  | ArrayBody newPrompts =>
      match insertMany newPrompts (CURRENT_TIMESTAMP w) (db w) with
      | Returns d' =>
          let w' := broadcast (prompts_imported (List.length newPrompts))
                              (set_db d' w) in
          (respond 200 (SuccessCount (List.length newPrompts)), w')
      | Throws _ => (respond 500 (ErrorBody "导入提示词失败"), w)
      end
  end.

(** [app.put('/api/prompts/:id')] *)
Definition put_prompt (i : parsed_id) (t c cat : jsval) (w : world)
  : response * world :=
  match update_run t c cat i (CURRENT_TIMESTAMP w) (db w) with
  | Returns (changes, d') =>
      if (changes =? 0)%nat then
        (respond 404 (ErrorBody "提示词未找到"), set_db d' w)
      else
        let updatedPrompt := select_by_param i d' in
        let w' := broadcast (prompt_updated updatedPrompt) (set_db d' w) in
        (respond 200 SuccessBody, w')
  | Throws _ => (respond 500 (ErrorBody "更新提示词失败"), w)
  end.

(** [app.delete('/api/prompts/:id')] *)
Definition delete_prompt (i : parsed_id) (w : world) : response * world :=
  let d' := delete_run i (db w) in
  let w' := broadcast (prompt_deleted i) (set_db d' w) in
  (respond 200 SuccessBody, w').

Inductive request : Type :=
| GET_prompts
| POST_prompts (t c cat : jsval)
| POST_import (b : import_body)
| PUT_prompt (i : parsed_id) (t c cat : jsval)
| DELETE_prompt (i : parsed_id).

Definition handle (r : request) (w : world) : response * world :=
  match r with
  | GET_prompts => get_prompts w
  | POST_prompts t c cat => post_prompt t c cat w
  | POST_import b => import_prompts b w
  | PUT_prompt i t c cat => put_prompt i t c cat w
  | DELETE_prompt i => delete_prompt i w
  end.

(** ** WebSocket events *)

Definition set_alive (c : nat) (b : bool) (l : list websocket)
  : list websocket :=
  map (fun ws =>
         if (sock ws =? c)%nat
         then {| sock := sock ws; readyState := readyState ws; isAlive := b |}
         else ws) l.

Definition set_state (c : nat) (s : ready_state) (l : list websocket)
  : list websocket :=
  map (fun ws =>
         if (sock ws =? c)%nat
         then {| sock := sock ws; readyState := s; isAlive := isAlive ws |}
         else ws) l.

(** [wss.on('connection', ...)]: the library has put the accepted socket,
    OPEN, into [wss.clients]; the handler adds it to [clients], sends it the
    table, registers the close and pong handlers and sets [isAlive]. *)
Definition on_connection (w : world) : world :=
  let c := next_sock w in
  let ws := {| sock := c; readyState := OPEN; isAlive := false |} in
  let w1 :=
    {| now := now w; next_beat := next_beat w; db := db w;
       wss_clients := wss_clients w ++ [ws];
       clients := clients w ++ [c];
       next_sock := S c; log := log w |} in
  let prompts := select_all (db w1) in
  let w2 := emit [Stringify (initial_data prompts);
                  Send c (JSON_stringify (initial_data prompts))] w1 in
  set_wss_clients (set_alive c true (wss_clients w2)) w2.

(** [ws.on('pong', ...)] *)
Definition on_pong (c : nat) (w : world) : world :=
  set_wss_clients (set_alive c true (wss_clients w)) w.

(** The peer starts the closing handshake: the socket is CLOSING until its
    close event. *)
Definition on_closing (c : nat) (w : world) : world :=
  set_wss_clients (set_state c CLOSING (wss_clients w)) w.

(** The socket's close event: the library drops it from [wss.clients], and
    [ws.on('close', ...)] deletes it from [clients]. *)
Definition on_close (c : nat) (w : world) : world :=
  set_clients (filter (fun c' => negb (c' =? c)%nat) (clients w))
    (set_wss_clients
       (filter (fun ws => negb (sock ws =? c)%nat) (wss_clients w)) w).

(** ** Heartbeat *)

(** [ws.terminate()]: the socket is destroyed; it is CLOSING until its close
    event arrives. *)
Definition terminate (ws : websocket) : websocket :=
  {| sock := sock ws;
     readyState := match readyState ws with CLOSED => CLOSED | _ => CLOSING end;
     isAlive := isAlive ws |}.

(** [ws.ping(null, false, true)]. Since ws 4 the third parameter of [ping]
    is the callback, and [true] is not one: on an OPEN socket the write that
    is handed [true] throws, on any other the scheduling of the callback
    throws, and no ping frame is sent either way. (In ws 3 and before the
    third parameter was [failSilently] and the call sent the frame.) *)
Definition ping (ws : websocket) : outcome (list effect) :=
  Throws TypeError.

(** The body of the [forEach] callback of the interval: the socket as the
    body leaves it, and what the body did or the exception it ended with. *)
Definition heartbeat_client (ws : websocket)
  : websocket * outcome (list effect) :=
  if negb (isAlive ws) then (terminate ws, Returns [Terminate (sock ws)])
  else ({| sock := sock ws; readyState := readyState ws; isAlive := false |},
        ping ws).

(** [wss.clients.forEach] with that callback, in insertion order. An
    exception thrown by the callback ends the iteration: the sockets after
    the one it was thrown for are not visited in this run. *)
Fixpoint heartbeat_each (l : list websocket) : list websocket * list effect :=
  match l with
  | [] => ([], [])
  | ws :: rest =>
      match heartbeat_client ws with
      | (ws', Returns es) =>
          (ws' :: fst (heartbeat_each rest), es ++ snd (heartbeat_each rest))
      | (ws', Throws _) => (ws' :: rest, [])
      end
  end.

(** One run of the interval callback. An exception that leaves it reaches
    the process's uncaughtException handler, which logs it; the server and
    the timer go on. *)
Definition heartbeatInterval (w : world) : world :=
  set_wss_clients (fst (heartbeat_each (wss_clients w)))
    (emit (snd (heartbeat_each (wss_clients w))) w).

(** The interval timer fires: the clock reads the due time, the callback
    runs, and the timer is re-armed one period later. *)
Definition beat (w : world) : world :=
  let w1 := heartbeatInterval (set_now (next_beat w) w) in
  {| now := now w1; next_beat := (next_beat w + heartbeat_period)%N;
     db := db w1; wss_clients := wss_clients w1; clients := clients w1;
     next_sock := next_sock w1; log := log w1 |}.

(** How many timer runs the clock passes on its way to [target]: a run due
    at the instant [target] itself comes after what is handled at that
    instant. *)
Definition beats_due (next target : N) : nat :=
  if (next <? target)%N
  then S (N.to_nat ((target - 1 - next) / heartbeat_period))
  else 0.

(** [dt] milliseconds pass. *)
Definition wait (dt : N) (w : world) : world :=
  let target := (now w + dt)%N in
  set_now target (Nat.iter (beats_due (next_beat w) target) beat w).

(** ** The server as a transition system *)

Inductive input : Type :=
| Http (r : request)
| WsConnect
| WsPong (c : nat)
| WsClosing (c : nat)
| WsClose (c : nat)
| Wait (dt : N).

Definition step (i : input) (w : world) : world :=
  match i with
  | Http r => snd (handle r w)
  | WsConnect => on_connection w
  | WsPong c => on_pong c w
  | WsClosing c => on_closing c w
  | WsClose c => on_close c w
  | Wait dt => wait dt w
  end.

Definition run (ins : list input) (w : world) : world :=
  fold_left (fun w' i => step i w') ins w.

(** The server right after startup on a database file [d]. *)
Definition startup (d : database) : world :=
  {| now := 0; next_beat := heartbeat_period; db := seed 0 d;
     wss_clients := []; clients := []; next_sock := 0; log := [] |}.

Definition find_ws (c : nat) (l : list websocket) : option websocket :=
  find (fun ws => (sock ws =? c)%nat) l.

(** What [w'] has logged beyond [w]. *)
Definition emitted (w w' : world) : list (N * effect) :=
  skipn (List.length (log w)) (log w').

(** The messages [w'] has serialized beyond [w], in order. *)
Definition serialized (w w' : world) : list message :=
  flat_map (fun e => match snd e with Stringify m => [m] | _ => [] end)
           (emitted w w').

(** ** Vocabulary of the statements *)

(** What one [broadcast] of [msg] over the sockets [l] does: the message is
    serialized, then the payload goes to the OPEN sockets, in order. *)
Definition broadcast_effects (msg : message) (l : list websocket)
  : list effect :=
  Stringify msg ::
  map (fun ws => Send (sock ws) (JSON_stringify msg))
      (filter (fun ws => is_open (readyState ws)) l).


(** A row of the documented shape with non-empty title and content. *)
Definition valid_row (r : import_row) : bool :=
  match r with
  | RowObject (JString t) (JString c) _ =>
      negb (t =? EmptyString) && negb (c =? EmptyString)
  | _ => false
  end.

(** Ids are unique and none exceeds the AUTOINCREMENT counter. *)
Definition db_wf (d : database) : Prop :=
  NoDup (map id (rows d)) /\
  Forall (fun p => (id p <= sqlite_sequence d)%Z) (rows d).

(** The stored category for a request's [category || 'General']. *)
Definition stored_category (cat : jsval) : option string :=
  bind (js_or cat "General").

(** The text of a request value (empty when it is not a string). *)
Definition text_of (v : jsval) : string :=
  match v with
  | JString s => s
  | _ => EmptyString
  end.

Definition is_chatter (e : effect) : bool :=
  match e with
  | Stringify _ | Send _ _ => true
  | _ => false
  end.

(** [w'] differs from [w] by the store and by sends only. *)
Definition quiet (w w' : world) : Prop :=
  now w' = now w /\ next_beat w' = next_beat w /\
  wss_clients w' = wss_clients w /\ clients w' = clients w /\
  next_sock w' = next_sock w /\
  exists es, log w' = log w ++ stamp (now w) es /\
             forallb is_chatter es = true.

(** Socket identities in [wss.clients] are distinct and older than the
    next one to be handed out. *)
Definition sockets_wf (w : world) : Prop :=
  NoDup (map sock (wss_clients w)) /\
  Forall (fun ws => sock ws < next_sock w) (wss_clients w).

(** The timer is due no earlier than now and its last run is in the past. *)
Definition timer_ok (w : world) : Prop :=
  (now w <= next_beat w)%N /\ (next_beat w < now w + heartbeat_period)%N.

(** ** The categories route and further vocabulary *)

(** Equality of two values of the category column; two NULLs are the same
    value for DISTINCT. *)
Definition category_eqb (a b : option string) : bool :=
  match a, b with
  | Some x, Some y => (x =? y)%string
  | None, None => true
  | _, _ => false
  end.

(** DISTINCT over a column: each value once, at its first occurrence. *)
Fixpoint distinct (l : list (option string)) : list (option string) :=
  match l with
  | [] => []
  | x :: r => x :: filter (fun y => negb (category_eqb x y)) (distinct r)
  end.

(** [SELECT DISTINCT category FROM prompts] with [.all], each row reduced to
    its [category] as [categories.map(c => c.category)] does. *)
Definition select_distinct_category (d : database) : list (option string) :=
  distinct (map category (rows d)).

Record categories_response : Type := {
  categories_status : nat;
  categories_body : list (option string)
}.

(** [app.get('/api/categories')] *)
Definition get_categories (w : world) : categories_response * world :=
  ({| categories_status := 200;
      categories_body := select_distinct_category (db w) |}, w).

(** The order of the listing: [a] may come before [b]. *)
Definition newer_first (a b : prompt) : Prop :=
  (updated_at b <= updated_at a)%N.

(** An element of an import batch that the INSERT accepts: an object whose
    title and content are strings. *)
Definition storable (r : import_row) : bool :=
  match r with
  | RowObject (JString _) (JString _) _ => true
  | _ => false
  end.

(** What an accepted element stores as title, content and category. *)
Definition row_fields (r : import_row) : string * string * option string :=
  match r with
  | RowObject t c cat => (text_of t, text_of c, stored_category cat)
  | RowNull => (EmptyString, EmptyString, None)
  end.

Definition prompt_fields (p : prompt) : string * string * option string :=
  (title p, content p, category p).

(** Every record was created no later than it was last updated, and none is
    from the future. *)
Definition times_wf (w : world) : Prop :=
  Forall (fun p => (created_at p <= updated_at p)%N /\
                   (updated_at p <= CURRENT_TIMESTAMP w)%N)
         (rows (db w)).

(** The socket an effect is addressed to. *)
Definition effect_sock (e : effect) : option nat :=
  match e with
  | Stringify _ => None
  | Send c _ | Ping c | Terminate c => Some c
  end.

(** Socket [c] has been handed out and is no longer registered. *)
Definition gone (c : nat) (w : world) : Prop :=
  find_ws c (wss_clients w) = None /\ ~ In c (clients w) /\ c < next_sock w.

(** No effect among [es] is addressed to socket [c]. *)
Definition unaddressed (c : nat) (es : list (N * effect)) : Prop :=
  forall t e, In (t, e) es -> effect_sock e <> Some c.

(** The message a route announces a successful request with, read off the
    request, the response and the store as the request left it. *)
Definition announcement (r : request) (res : response) (d' : database)
  : option message :=
  match r, body res with
  | POST_prompts _ _ _, SuccessId i => Some (prompt_created (select_by_id i d'))
  | POST_import (ArrayBody l), _ => Some (prompts_imported (List.length l))
  | PUT_prompt i _ _ _, _ => Some (prompt_updated (select_by_param i d'))
  | DELETE_prompt i, _ => Some (prompt_deleted i)
  | _, _ => None
  end.

(** A logged effect is a serialization, or a send to a member of [l] that
    is OPEN. *)
Definition to_open_member (l : list websocket) (e : N * effect) : bool :=
  match snd e with
  | Stringify _ => true
  | Send c _ =>
      existsb (fun ws => (sock ws =? c)%nat && is_open (readyState ws)) l
  | _ => false
  end.

(** The timer is due at a positive multiple of the period, and so far every
    ping and every termination was logged at one. *)
Definition on_the_beat (w : world) : Prop :=
  (exists k, (0 < k)%N /\ next_beat w = (k * heartbeat_period)%N) /\
  forall t e, In (t, e) (log w) -> is_chatter e = false ->
              exists k, (0 < k)%N /\ t = (k * heartbeat_period)%N.

(** ** Basic facts *)

Lemma emitted_app (w w' : world) (es : list (N * effect)) :
  log w' = log w ++ es -> emitted w w' = es.
Proof.
  intros H. unfold emitted. rewrite H.
  rewrite skipn_app, skipn_all, Nat.sub_diag. reflexivity.
Qed.

Lemma emitted_refl (w : world) : emitted w w = [].
Proof. apply emitted_app. now rewrite app_nil_r. Qed.

Lemma stamp_app (t : N) (a b : list effect) :
  stamp t (a ++ b) = stamp t a ++ stamp t b.
Proof. apply map_app. Qed.

Lemma set_db_same (w : world) : set_db (db w) w = w.
Proof. now destruct w. Qed.

Lemma database_eta (d : database) :
  {| rows := rows d; sqlite_sequence := sqlite_sequence d |} = d.
Proof. now destruct d. Qed.

Section Broadcast.

Variable msg : message.

Lemma deliver_fold (l : list websocket) (w : world) :
  let w' := fold_left (send_if_open (JSON_stringify msg)) l w in
  now w' = now w /\ next_beat w' = next_beat w /\ db w' = db w /\
  wss_clients w' = wss_clients w /\ clients w' = clients w /\
  next_sock w' = next_sock w /\
  log w' = log w ++ stamp (now w)
                      (map (fun ws => Send (sock ws) (JSON_stringify msg))
                           (filter (fun ws => is_open (readyState ws)) l)).
Proof.
  revert w. induction l as [|ws l IH]; intros w; simpl.
  - rewrite app_nil_r. tauto.
  - specialize (IH (send_if_open (JSON_stringify msg) w ws)). simpl in IH.
    destruct IH as (Hn & Hb & Hd & Hc & Hk & Hs & Hl).
    unfold send_if_open in *. destruct (is_open (readyState ws)); simpl in *.
    + rewrite Hn, Hb, Hd, Hc, Hk, Hs, Hl, <- app_assoc. simpl. tauto.
    + tauto.
Qed.

Lemma broadcast_fields (w : world) :
  let w' := broadcast msg w in
  now w' = now w /\ next_beat w' = next_beat w /\ db w' = db w /\
  wss_clients w' = wss_clients w /\ clients w' = clients w /\
  next_sock w' = next_sock w /\
  log w' = log w ++ stamp (now w) (broadcast_effects msg (wss_clients w)).
Proof.
  unfold broadcast.
  pose proof (deliver_fold (wss_clients w) (emit [Stringify msg] w)) as H.
  simpl in H. destruct H as (Hn & Hb & Hd & Hc & Hk & Hs & Hl).
  simpl.
  rewrite Hn, Hb, Hd, Hc, Hk, Hs, Hl, <- app_assoc. simpl. tauto.
Qed.

Lemma broadcast_emitted (w : world) :
  emitted w (broadcast msg w)
  = stamp (now w) (broadcast_effects msg (wss_clients w)).
Proof. apply emitted_app, broadcast_fields. Qed.

Lemma broadcast_db (w : world) : db (broadcast msg w) = db w.
Proof. apply broadcast_fields. Qed.

Lemma broadcast_chatter (l : list websocket) :
  forallb is_chatter (broadcast_effects msg l) = true.
Proof.
  unfold broadcast_effects. simpl.
  induction l as [|ws l IH]; simpl; auto.
  destruct (is_open (readyState ws)); simpl; auto.
Qed.

Lemma broadcast_quiet (w : world) : quiet w (broadcast msg w).
Proof.
  destruct (broadcast_fields w) as (Hn & Hb & _ & Hc & Hk & Hs & Hl).
  repeat split; auto.
  exists (broadcast_effects msg (wss_clients w)).
  split; [exact Hl | apply broadcast_chatter].
Qed.

End Broadcast.

Lemma broadcast_set_db_emitted (msg : message) (d : database) (w : world) :
  emitted w (broadcast msg (set_db d w))
  = stamp (now w) (broadcast_effects msg (wss_clients w)).
Proof.
  apply emitted_app.
  destruct (broadcast_fields msg (set_db d w)) as (_ & _ & _ & _ & _ & _ & Hl).
  exact Hl.
Qed.

Lemma quiet_refl (w : world) : quiet w w.
Proof.
  repeat split; auto. exists []. simpl. now rewrite app_nil_r.
Qed.

Lemma quiet_set_db (d : database) (w w' : world) :
  quiet (set_db d w) w' -> quiet w w'.
Proof. unfold quiet. simpl. tauto. Qed.

Lemma length_insert_desc (p : prompt) (l : list prompt) :
  List.length (insert_desc p l) = S (List.length l).
Proof.
  induction l as [|q r IH]; simpl; auto.
  destruct (updated_at q <=? updated_at p)%N; simpl; auto.
Qed.

Lemma length_select_ordered (d : database) :
  List.length (select_ordered d) = List.length (rows d).
Proof.
  unfold select_ordered. induction (rows d) as [|p l IH]; simpl; auto.
  now rewrite length_insert_desc, IH.
Qed.

Lemma truthy_false_iff (v : jsval) :
  truthy v = false <-> v = JUndefined \/ v = JNull \/ v = JString EmptyString.
Proof.
  destruct v as [| |s]; simpl.
  - split; [auto | intros _; reflexivity].
  - split; [auto | intros _; reflexivity].
  - rewrite negb_false_iff, String.eqb_eq. split.
    + intros ->. auto.
    + intros [H|[H|H]]; congruence.
Qed.

Lemma truthy_text (v : jsval) :
  truthy v = true -> v = JString (text_of v) /\ text_of v <> EmptyString.
Proof.
  destruct v as [| |s]; simpl; try discriminate.
  rewrite negb_true_iff, String.eqb_neq. auto.
Qed.

Lemma js_or_bind (v : jsval) (d : string) : exists s, bind (js_or v d) = Some s.
Proof.
  unfold js_or. destruct v as [| |s]; simpl; eauto.
  destruct (s =? EmptyString); simpl; eauto.
Qed.

Lemma find_id_fresh (i : Z) (l : list prompt) :
  ~ In i (map id l) -> find (fun p => (id p =? i)%Z) l = None.
Proof.
  induction l as [|p l IH]; simpl; auto.
  intros H. destruct (Z.eqb_spec (id p) i); [tauto | apply IH; tauto].
Qed.

Lemma find_app_none {A : Type} (f : A -> bool) (l l' : list A) :
  find f l = None -> find f (l ++ l') = find f l'.
Proof.
  induction l as [|a l IH]; simpl; auto.
  destruct (f a); [discriminate | auto].
Qed.

Lemma find_app_some {A : Type} (f : A -> bool) (l l' : list A) (a : A) :
  find f l = Some a -> find f (l ++ l') = Some a.
Proof.
  induction l as [|b l IH]; simpl; [discriminate|].
  destruct (f b); auto.
Qed.

Lemma wf_fresh (d : database) :
  db_wf d -> ~ In (sqlite_sequence d + 1)%Z (map id (rows d)).
Proof.
  intros [_ Hle] Hin. apply in_map_iff in Hin. destruct Hin as (p & Hp & Hin).
  rewrite Forall_forall in Hle. specialize (Hle p Hin). lia.
Qed.

Lemma insert_run_text (t c : string) (cat : jsval) (ts : N) (d : database) :
  insert_run (JString t) (JString c) cat ts d
  = Returns ((sqlite_sequence d + 1)%Z,
             {| rows := rows d ++
                        [{| id := (sqlite_sequence d + 1)%Z; title := t;
                            content := c; category := bind cat;
                            created_at := ts; updated_at := ts |}];
                sqlite_sequence := (sqlite_sequence d + 1)%Z |}).
Proof. reflexivity. Qed.

Lemma insert_run_wf (t c cat : jsval) (ts : N) (d d' : database) (i : Z) :
  db_wf d -> insert_run t c cat ts d = Returns (i, d') -> db_wf d'.
Proof.
  intros Hwf H. unfold insert_run in H.
  destruct (bind t), (bind c); try discriminate.
  injection H as <- <-. pose proof (wf_fresh d Hwf) as Hf.
  destruct Hwf as [Hnd Hle]. split; simpl.
  - rewrite map_app. simpl. apply NoDup_app; auto.
    + repeat constructor. simpl. tauto.
    + intros a Ha [<-|[]]. tauto.
  - apply Forall_app. split.
    + eapply Forall_impl; [|exact Hle]. simpl. intros; lia.
    + repeat constructor. simpl. lia.
Qed.

Lemma insert_each_valid (l : list import_row) (ts : N) (d : database) :
  forallb valid_row l = true ->
  exists d', insert_each l ts d = Returns d' /\
             List.length (rows d') = List.length (rows d) + List.length l.
Proof.
  revert d. induction l as [|r l IH]; intros d H; simpl in *.
  - exists d. split; auto.
  - apply andb_true_iff in H. destruct H as [Hr Hl].
    destruct r as [|t c cat]; simpl in Hr; try discriminate.
    destruct t as [| |t]; try discriminate.
    destruct c as [| |c]; try discriminate.
    rewrite insert_run_text. simpl.
    destruct (IH {| rows := rows d ++
                        [{| id := (sqlite_sequence d + 1)%Z; title := t;
                            content := c;
                            category := bind (js_or cat "General");
                            created_at := ts; updated_at := ts |}];
                    sqlite_sequence := (sqlite_sequence d + 1)%Z |} Hl)
      as (d' & Hd' & Hlen).
    exists d'. split; auto. rewrite Hlen. simpl.
    rewrite length_app. simpl. lia.
Qed.

Lemma select_param_none_filter (i : parsed_id) (d : database) :
  select_by_param i d = None -> filter (matches i) (rows d) = [].
Proof.
  destruct i as [z|]; simpl.
  - unfold select_by_id. induction (rows d) as [|p l IH]; simpl; auto.
    destruct (id p =? z)%Z; [discriminate | auto].
  - intros _. induction (rows d) as [|p l IH]; simpl; auto.
Qed.

Lemma select_param_some_filter (i : parsed_id) (d : database) (p : prompt) :
  select_by_param i d = Some p -> filter (matches i) (rows d) <> [].
Proof.
  destruct i as [z|]; simpl; [|discriminate].
  unfold select_by_id. induction (rows d) as [|q l IH]; simpl; [discriminate|].
  destruct (id q =? z)%Z; [discriminate | auto].
Qed.

Lemma filter_none_keep (i : parsed_id) (l : list prompt) :
  filter (matches i) l = [] ->
  filter (fun p => negb (matches i p)) l = l.
Proof.
  induction l as [|p l IH]; simpl; auto.
  destruct (matches i p); simpl; [discriminate|].
  intros H. now rewrite IH.
Qed.

Lemma find_update (z z' : Z) (f : prompt -> prompt) (l : list prompt) :
  (forall p, id (f p) = id p) ->
  find (fun p => (id p =? z')%Z)
       (map (fun p => if (id p =? z)%Z then f p else p) l)
  = if (z' =? z)%Z
    then option_map f (find (fun p => (id p =? z)%Z) l)
    else find (fun p => (id p =? z')%Z) l.
Proof.
  intros Hf. induction l as [|p l IH]; simpl.
  - now destruct (z' =? z)%Z.
  - rewrite IH.
    destruct (Z.eqb_spec (id p) z); simpl; [rewrite Hf|];
      destruct (Z.eqb_spec (id p) z'); destruct (Z.eqb_spec z' z);
      simpl; try congruence; try reflexivity.
Qed.

Lemma serialized_broadcast_effects (t : N) (msg : message)
    (l : list websocket) :
  flat_map (fun e => match snd e with Stringify m => [m] | _ => [] end)
           (stamp t (broadcast_effects msg l)) = [msg].
Proof.
  unfold broadcast_effects. simpl. f_equal.
  induction l as [|ws l IH]; simpl; auto.
  destruct (is_open (readyState ws)); simpl; auto.
Qed.

Lemma serialized_broadcast (msg : message) (d : database) (w : world) :
  serialized w (broadcast msg (set_db d w)) = [msg].
Proof.
  unfold serialized. rewrite broadcast_set_db_emitted.
  apply serialized_broadcast_effects.
Qed.

(** ** The store and the HTTP handlers *)

(** C9. [broadcast] serializes the message once and sends that one payload
    to exactly the members of [wss.clients] that are OPEN, in order; the
    others are skipped, and nothing else changes. *)
Theorem broadcast_delivers (msg : message) (w : world) :
  let w' := broadcast msg w in
  emitted w w'
  = stamp (now w)
      (Stringify msg ::
       map (fun ws => Send (sock ws) (JSON_stringify msg))
           (filter (fun ws => is_open (readyState ws)) (wss_clients w))) /\
  serialized w w' = [msg] /\
  wss_clients w' = wss_clients w /\
  clients w' = clients w /\
  db w' = db w.
Proof.
  simpl. destruct (broadcast_fields msg w) as (_ & _ & Hd & Hc & Hk & _ & Hl).
  repeat split; auto.
  - apply emitted_app. exact Hl.
  - rewrite <- (set_db_same w) at 2. apply serialized_broadcast.
Qed.

(** C10. Importing an empty array answers 200 with count 0, leaves the
    store as it was, and still broadcasts one [prompts_imported] message
    with count 0. *)
Theorem import_empty_array (w : world) :
  let r := import_prompts (ArrayBody []) w in
  fst r = respond 200 (SuccessCount 0) /\
  db (snd r) = db w /\
  serialized w (snd r) = [prompts_imported 0] /\
  emitted w (snd r)
  = stamp (now w) (broadcast_effects (prompts_imported 0) (wss_clients w)).
Proof.
  simpl. repeat split.
  - now rewrite broadcast_db.
  - apply serialized_broadcast.
  - apply broadcast_set_db_emitted.
Qed.

(** C4. A batch of N rows, each with non-empty title and content, makes
    the listing N rows longer, is answered 200 with count N, and is
    announced by exactly one [prompts_imported] message with count N. *)
Theorem import_valid_batch (l : list import_row) (w : world) :
  forallb valid_row l = true ->
  let r := import_prompts (ArrayBody l) w in
  fst r = respond 200 (SuccessCount (List.length l)) /\
  List.length (select_ordered (db (snd r)))
  = List.length (select_ordered (db w)) + List.length l /\
  serialized w (snd r) = [prompts_imported (List.length l)] /\
  emitted w (snd r)
  = stamp (now w)
      (broadcast_effects (prompts_imported (List.length l)) (wss_clients w)).
Proof.
  intros H. simpl. unfold insertMany.
  destruct (insert_each_valid l (CURRENT_TIMESTAMP w) (db w) H)
    as (d' & -> & Hlen).
  simpl. repeat split.
  - now rewrite !length_select_ordered, broadcast_db.
  - apply serialized_broadcast.
  - apply broadcast_set_db_emitted.
Qed.

(** C5. A create request whose title or content is empty or absent is
    answered 400 and changes nothing; one with non-empty title and content
    is answered 201 with the id of the row it adds, an id no earlier row
    has. *)
Theorem post_prompt_validates (t c cat : jsval) (w : world) :
  db_wf (db w) ->
  let r := post_prompt t c cat w in
  if truthy t && truthy c then
    exists p,
      fst r = respond 201 (SuccessId (id p)) /\
      ~ In (id p) (map id (rows (db w))) /\
      rows (db (snd r)) = rows (db w) ++ [p] /\
      db_wf (db (snd r)) /\
      select_by_id (id p) (db (snd r)) = Some p /\
      title p = text_of t /\ content p = text_of c /\
      category p = stored_category cat /\
      created_at p = CURRENT_TIMESTAMP w /\
      updated_at p = CURRENT_TIMESTAMP w /\
      emitted w (snd r)
      = stamp (now w)
          (broadcast_effects (prompt_created (Some p)) (wss_clients w))
  else
    fst r = respond 400 (ErrorBody "标题和内容不能为空") /\ snd r = w.
Proof.
  intros Hwf. simpl. unfold post_prompt.
  destruct (truthy t) eqn:Ht; simpl.
  2: { split; reflexivity. }
  destruct (truthy c) eqn:Hc; simpl.
  2: { split; reflexivity. }
  destruct t as [| |t]; try discriminate.
  destruct c as [| |c]; try discriminate.
  rewrite insert_run_text. cbn [text_of].
  set (p := {| id := (sqlite_sequence (db w) + 1)%Z; title := t;
               content := c; category := bind (js_or cat "General");
               created_at := CURRENT_TIMESTAMP w;
               updated_at := CURRENT_TIMESTAMP w |}).
  set (d' := {| rows := rows (db w) ++ [p];
                sqlite_sequence := (sqlite_sequence (db w) + 1)%Z |}).
  pose proof (wf_fresh (db w) Hwf) as Hfresh.
  assert (Hsel : select_by_id (sqlite_sequence (db w) + 1) d' = Some p).
  { unfold select_by_id, d'. simpl.
    rewrite (find_app_none _ _ _ (find_id_fresh _ _ Hfresh)). simpl. now rewrite Z.eqb_refl. }
  rewrite Hsel. exists p. simpl. rewrite broadcast_db.
  split; [reflexivity|]. split; [exact Hfresh|]. split; [reflexivity|].
  split. { eapply insert_run_wf; [exact Hwf|]. apply insert_run_text. }
  split; [exact Hsel|].
  do 5 (split; [reflexivity|]).
  apply broadcast_set_db_emitted.
Qed.

(** C2, as the handler has it. Deleting an id that has no record answers
    200 with success and leaves the store as it was, and the handler
    broadcasts one [prompt_deleted] message carrying the requested id all
    the same. *)
Theorem delete_absent_still_publishes (i : parsed_id) (w : world) :
  select_by_param i (db w) = None ->
  let r := delete_prompt i w in
  fst r = respond 200 SuccessBody /\
  db (snd r) = db w /\
  serialized w (snd r) = [prompt_deleted i] /\
  emitted w (snd r)
  = stamp (now w) (broadcast_effects (prompt_deleted i) (wss_clients w)).
Proof.
  intros H. simpl. split; [reflexivity|]. split.
  - rewrite broadcast_db. simpl. unfold delete_run.
    rewrite (filter_none_keep _ _ (select_param_none_filter _ _ H)).
    apply database_eta.
  - split; [apply serialized_broadcast | apply broadcast_set_db_emitted].
Qed.

(** C6, as the handler has it. An update of an id that has no record is
    answered 404 and changes nothing. An update of an existing record that
    supplies title and content replaces title, content and category, keeps
    [created_at], sets [updated_at] to the current timestamp (whole
    seconds), leaves the other records alone, and is announced by one
    [prompt_updated] message carrying the record as updated. Afterwards
    [updated_at] is at least [created_at] when the record is not from the
    future, and later only when the clock has reached a later second. *)
Theorem put_prompt_overwrites (i : parsed_id) (t c cat : jsval) (w : world) :
  let r := put_prompt i t c cat w in
  match select_by_param i (db w) with
  | None =>
      fst r = respond 404 (ErrorBody "提示词未找到") /\ snd r = w
  | Some p =>
      forall t' c', bind t = Some t' -> bind c = Some c' ->
      let p' := {| id := id p; title := t'; content := c';
                   category := bind cat; created_at := created_at p;
                   updated_at := CURRENT_TIMESTAMP w |} in
      fst r = respond 200 SuccessBody /\
      select_by_param i (db (snd r)) = Some p' /\
      (forall z, Some z <> i ->
                 select_by_id z (db (snd r)) = select_by_id z (db w)) /\
      serialized w (snd r) = [prompt_updated (Some p')] /\
      emitted w (snd r)
      = stamp (now w)
          (broadcast_effects (prompt_updated (Some p')) (wss_clients w)) /\
      ((created_at p <= CURRENT_TIMESTAMP w)%N ->
       (created_at p' <= updated_at p')%N) /\
      ((created_at p < CURRENT_TIMESTAMP w)%N ->
       (created_at p' < updated_at p')%N)
  end.
Proof.
  simpl. unfold put_prompt, update_run.
  destruct (select_by_param i (db w)) as [p|] eqn:Hsel.
  - intros t' c' Ht Hc.
    pose proof (select_param_some_filter _ _ _ Hsel) as Hne.
    destruct (filter (matches i) (rows (db w))) as [|q hit] eqn:Hf;
      [congruence|].
    rewrite Ht, Hc. cbn [List.length Nat.eqb fst snd].
    destruct i as [z|]; [|discriminate]. simpl in Hsel.
    assert (Hid : id p = z).
    { unfold select_by_id in Hsel. apply find_some in Hsel.
      destruct Hsel as [_ E]. now apply Z.eqb_eq. }
    set (f := fun p0 : prompt =>
                {| id := id p0; title := t'; content := c';
                   category := bind cat; created_at := created_at p0;
                   updated_at := CURRENT_TIMESTAMP w |}).
    assert (Hfind : forall z',
               select_by_id z'
                 {| rows := map (fun p0 => if matches (Some z) p0
                                           then f p0 else p0) (rows (db w));
                    sqlite_sequence := sqlite_sequence (db w) |}
               = if (z' =? z)%Z then option_map f (select_by_id z (db w))
                 else select_by_id z' (db w)).
    { intros z'. unfold select_by_id. simpl.
      apply (find_update z z' f). reflexivity. }
    split; [reflexivity|]. simpl. rewrite broadcast_db. simpl.
    fold f. rewrite !Hfind, Z.eqb_refl, Hsel. simpl.
    split; [reflexivity|]. split.
    { intros z' Hz. rewrite Hfind.
      destruct (Z.eqb_spec z' z); [congruence | reflexivity]. }
    split; [apply serialized_broadcast|].
    split; [apply broadcast_set_db_emitted|].
    split; auto.
  - rewrite (select_param_none_filter _ _ Hsel). simpl.
    split; [reflexivity | apply set_db_same].
Qed.

(** ** Sockets and the heartbeat *)

Lemma find_ws_some (c : nat) (l : list websocket) (ws : websocket) :
  find_ws c l = Some ws -> In ws l /\ sock ws = c.
Proof.
  intros H. apply find_some in H. destruct H as [Hin E].
  split; [exact Hin | now apply Nat.eqb_eq].
Qed.

Lemma find_ws_map (c : nat) (f : websocket -> websocket) (l : list websocket) :
  (forall ws, sock (f ws) = sock ws) ->
  find_ws c (map f l) = option_map f (find_ws c l).
Proof.
  intros Hf. unfold find_ws. induction l as [|ws l IH]; simpl; auto.
  rewrite Hf. destruct (sock ws =? c)%nat; auto.
Qed.

Lemma find_ws_filter_other (c c' : nat) (l : list websocket) :
  c' <> c ->
  find_ws c (filter (fun ws => negb (sock ws =? c')%nat) l) = find_ws c l.
Proof.
  intros Hne. unfold find_ws. induction l as [|ws l IH]; simpl; auto.
  destruct (Nat.eqb_spec (sock ws) c'); simpl.
  - destruct (Nat.eqb_spec (sock ws) c); [congruence | exact IH].
  - destruct (sock ws =? c)%nat; auto.
Qed.

Lemma find_ws_filter_self (c : nat) (l : list websocket) :
  find_ws c (filter (fun ws => negb (sock ws =? c)%nat) l) = None.
Proof.
  unfold find_ws. induction l as [|ws l IH]; simpl; auto.
  destruct (Nat.eqb_spec (sock ws) c) as [E|E]; simpl; auto.
  destruct (Nat.eqb_spec (sock ws) c); [contradiction | exact IH].
Qed.

Lemma socks_unique (l : list websocket) (a b : websocket) :
  NoDup (map sock l) -> In a l -> In b l -> sock a = sock b -> a = b.
Proof.
  induction l as [|ws l IH]; simpl; [tauto|].
  intros Hnd Ha Hb E. inversion Hnd as [|x xs Hnot Hnd']; subst.
  destruct Ha as [<-|Ha], Hb as [<-|Hb]; auto.
  - exfalso. apply Hnot. rewrite E. now apply in_map.
  - exfalso. apply Hnot. rewrite <- E. now apply in_map.
Qed.

Lemma map_sock_map (f : websocket -> websocket) (l : list websocket) :
  (forall ws, sock (f ws) = sock ws) -> map sock (map f l) = map sock l.
Proof.
  intros Hf. rewrite map_map. apply map_ext. exact Hf.
Qed.

Lemma NoDup_socks_filter (f : websocket -> bool) (l : list websocket) :
  NoDup (map sock l) -> NoDup (map sock (filter f l)).
Proof.
  induction l as [|ws l IH]; simpl; auto.
  intros Hnd. inversion Hnd as [|x xs Hnot Hnd']; subst.
  destruct (f ws); simpl; auto. constructor; auto.
  intros Hin. apply Hnot. apply in_map_iff in Hin.
  destruct Hin as (y & Ey & Hy). apply filter_In in Hy.
  apply in_map_iff. exists y. tauto.
Qed.

Lemma sockets_wf_map (f : websocket -> websocket) (w : world) :
  (forall ws, sock (f ws) = sock ws) ->
  sockets_wf w -> sockets_wf (set_wss_clients (map f (wss_clients w)) w).
Proof.
  intros Hf [Hnd Hlt]. split; simpl.
  - now rewrite map_sock_map.
  - apply Forall_map. eapply Forall_impl; [|exact Hlt].
    simpl. intros ws. now rewrite Hf.
Qed.

Lemma sockets_wf_same (w w' : world) :
  wss_clients w' = wss_clients w -> next_sock w' = next_sock w ->
  sockets_wf w -> sockets_wf w'.
Proof. unfold sockets_wf. intros -> ->. auto. Qed.

Lemma handle_quiet (r : request) (w : world) : quiet w (snd (handle r w)).
Proof.
  destruct r as [|t c cat|b|i t c cat|i]; simpl.
  - apply quiet_refl.
  - unfold post_prompt. destruct (negb (truthy t) || negb (truthy c)); simpl.
    + apply quiet_refl.
    + destruct (insert_run _ _ _ _ _) as [[i d']|e]; simpl.
      * eapply quiet_set_db, broadcast_quiet.
      * apply quiet_refl.
  - destruct b as [|l]; simpl; [apply quiet_refl|].
    destruct (insertMany _ _ _) as [d'|e]; simpl.
    + eapply quiet_set_db, broadcast_quiet.
    + apply quiet_refl.
  - unfold put_prompt. destruct (update_run _ _ _ _ _ _) as [[n d']|e]; simpl.
    + destruct (n =? 0)%nat; simpl.
      * eapply quiet_set_db, quiet_refl.
      * eapply quiet_set_db, broadcast_quiet.
    + apply quiet_refl.
  - eapply quiet_set_db, broadcast_quiet.
Qed.

Lemma in_filter_other (c c' : nat) (l : list nat) :
  c' <> c -> In c l -> In c (filter (fun x => negb (x =? c')%nat) l).
Proof.
  intros Hne Hin. apply filter_In. split; auto.
  apply negb_true_iff, Nat.eqb_neq. auto.
Qed.

Lemma step_clock (i : input) (w : world) :
  (forall dt, i <> Wait dt) ->
  now (step i w) = now w /\ next_beat (step i w) = next_beat w.
Proof.
  intros Hw. destruct i as [r| |c|c|c|dt]; simpl; auto.
  - destruct (handle_quiet r w) as (Hn & Hb & _). auto.
  - now destruct (Hw dt).
Qed.

Lemma heartbeat_client_sock (ws : websocket) :
  sock (fst (heartbeat_client ws)) = sock ws.
Proof. unfold heartbeat_client. now destruct (isAlive ws). Qed.

Lemma heartbeat_each_socks (l : list websocket) :
  map sock (fst (heartbeat_each l)) = map sock l.
Proof.
  induction l as [|ws l IH]; simpl; [reflexivity|].
  unfold heartbeat_client, ping. destruct (isAlive ws); simpl.
  - reflexivity.
  - now rewrite IH.
Qed.

Lemma heartbeat_each_effects (e : effect) (l : list websocket) :
  In e (snd (heartbeat_each l)) ->
  exists x, In x l /\ isAlive x = false /\ e = Terminate (sock x).
Proof.
  induction l as [|ws l IH]; simpl; [tauto|].
  unfold heartbeat_client, ping. destruct (isAlive ws) eqn:E; simpl.
  - tauto.
  - intros [<-|Hin]; [eauto|].
    destruct (IH Hin) as (x & Hx & Ha & He). eauto 6.
Qed.

Lemma sockets_wf_socks (w w' : world) :
  map sock (wss_clients w') = map sock (wss_clients w) ->
  next_sock w' = next_sock w ->
  sockets_wf w -> sockets_wf w'.
Proof.
  unfold sockets_wf. intros Hs Hn [Hnd Hlt]. rewrite Hs, Hn.
  split; [exact Hnd|].
  apply (Forall_map sock (fun c => c < next_sock w)).
  rewrite Hs. now apply Forall_map.
Qed.

Lemma sockets_wf_beat (w : world) : sockets_wf w -> sockets_wf (beat w).
Proof.
  apply sockets_wf_socks; [|reflexivity].
  simpl. apply heartbeat_each_socks.
Qed.

Lemma sockets_wf_step (i : input) (w : world) :
  sockets_wf w -> sockets_wf (step i w).
Proof.
  intros Hwf. destruct i as [r| |c|c|c|dt]; cbn [step].
  - destruct (handle_quiet r w) as (_ & _ & Hc & _ & Hs & _).
    eapply sockets_wf_same; eauto.
  - destruct Hwf as [Hnd Hlt]. split; simpl; unfold set_alive.
    + rewrite map_sock_map, map_app.
      * simpl. apply NoDup_app; auto.
        -- repeat constructor. simpl. tauto.
        -- intros a Ha [<-|[]]. apply in_map_iff in Ha.
           destruct Ha as (x & Ex & Hx). rewrite Forall_forall in Hlt.
           specialize (Hlt x Hx). lia.
      * intros x. now destruct (sock x =? next_sock w)%nat.
    + apply Forall_map, Forall_app. split.
      * eapply Forall_impl; [|exact Hlt]. simpl. intros x Hx.
        destruct (sock x =? next_sock w)%nat; simpl;
          now apply Nat.lt_lt_succ_r.
      * constructor; [|constructor]. simpl. rewrite Nat.eqb_refl. simpl.
        apply Nat.lt_succ_diag_r.
  - apply sockets_wf_map; auto. intros x. now destruct (sock x =? c)%nat.
  - apply sockets_wf_map; auto. intros x. now destruct (sock x =? c)%nat.
  - destruct Hwf as [Hnd Hlt]. split; simpl.
    + now apply NoDup_socks_filter.
    + apply Forall_forall. intros x Hx. apply filter_In in Hx.
      rewrite Forall_forall in Hlt. apply Hlt. tauto.
  - unfold wait.
    assert (H : sockets_wf (Nat.iter (beats_due (next_beat w) (now w + dt))
                                     beat w)).
    { induction (beats_due (next_beat w) (now w + dt)) as [|k IH];
        [exact Hwf|].
      change (Nat.iter (S k) beat w) with (beat (Nat.iter k beat w)).
      now apply sockets_wf_beat. }
    exact H.
Qed.

(** *** The interval timer *)

Lemma beats_due_spec (next target : N) :
  (target <= next + N.of_nat (beats_due next target) * heartbeat_period)%N /\
  (beats_due next target <> 0 ->
   (next + N.of_nat (pred (beats_due next target)) * heartbeat_period
    < target)%N).
Proof.
  unfold beats_due. destruct (N.ltb_spec next target) as [Hlt|Hge].
  - set (q := ((target - 1 - next) / heartbeat_period)%N).
    assert (Hp : heartbeat_period <> 0%N) by discriminate.
    pose proof (N.div_mod (target - 1 - next) heartbeat_period Hp) as Hdm.
    pose proof (N.mod_lt (target - 1 - next) heartbeat_period Hp) as Hml.
    fold q in Hdm. cbn [pred]. rewrite Nat2N.inj_succ, N2Nat.id.
    clearbody q. unfold heartbeat_period in *.
    set (r := ((target - 1 - next) mod 30000)%N) in *. clearbody r.
    split; [|intros _]; lia.
  - simpl. split; [lia | congruence].
Qed.

Lemma iter_beat_next (k : nat) (w : world) :
  next_beat (Nat.iter k beat w)
  = (next_beat w + N.of_nat k * heartbeat_period)%N.
Proof.
  induction k as [|k IH].
  - simpl. lia.
  - change (Nat.iter (S k) beat w) with (beat (Nat.iter k beat w)).
    unfold beat at 1. cbn [next_beat]. rewrite IH, Nat2N.inj_succ.
    unfold heartbeat_period. lia.
Qed.

Lemma wait_clock (dt : N) (w : world) :
  now (wait dt w) = (now w + dt)%N /\
  next_beat (wait dt w)
  = (next_beat w
     + N.of_nat (beats_due (next_beat w) (now w + dt)) * heartbeat_period)%N.
Proof.
  unfold wait. cbn [now next_beat set_now]. split; [reflexivity|].
  apply iter_beat_next.
Qed.

(** The timer condition holds in every state the server reaches once its
    clock has moved. *)
Lemma timer_ok_step (i : input) (w : world) :
  timer_ok w -> timer_ok (step i w).
Proof.
  intros [Hle Hlt]. unfold timer_ok.
  destruct i as [r| |c|c|c|dt].
  6: { cbn [step]. destruct (wait_clock dt w) as [-> ->].
       destruct (beats_due_spec (next_beat w) (now w + dt)) as [Hcov Hlast].
       unfold heartbeat_period in *.
       destruct (beats_due (next_beat w) (now w + dt)) as [|k].
       - split; lia.
       - specialize (Hlast ltac:(discriminate)). cbn [pred] in Hlast.
         rewrite Nat2N.inj_succ in *. split; lia. }
  all: match goal with
       | |- context [step ?i ?w0] =>
           destruct (step_clock i w0) as [E1 E2];
           [intros dt; discriminate | rewrite E1, E2; split; assumption]
       end.
Qed.

Lemma run_cons (i : input) (ins : list input) (w : world) :
  run (i :: ins) w = run ins (step i w).
Proof. reflexivity. Qed.

(** ** Reachable states satisfy the side conditions *)

Lemma insert_each_wf (l : list import_row) (ts : N) :
  forall d d', db_wf d -> insert_each l ts d = Returns d' -> db_wf d'.
Proof.
  induction l as [|r l IH]; intros d d' Hwf H; simpl in H.
  - now injection H as <-.
  - destruct r as [|t c cat]; [discriminate|].
    destruct (insert_run t c (js_or cat "General") ts d) as [[i d1]|e] eqn:E;
      simpl in H; [|discriminate].
    eapply IH; [|exact H]. eapply insert_run_wf; eauto.
Qed.

Lemma update_run_wf (t c cat : jsval) (i : parsed_id) (ts : N)
    (d d' : database) (n : nat) :
  db_wf d -> update_run t c cat i ts d = Returns (n, d') -> db_wf d'.
Proof.
  intros [Hnd Hle] H. unfold update_run in H.
  destruct (filter (matches i) (rows d)) as [|hit0 hit];
    [now injection H as _ <-|].
  destruct (bind t), (bind c); try discriminate. injection H as _ <-.
  split; simpl.
  - rewrite map_map. erewrite map_ext; [exact Hnd|].
    intros q. now destruct (matches i q).
  - apply Forall_map. eapply Forall_impl; [|exact Hle].
    intros q Hq. now destruct (matches i q).
Qed.

Lemma delete_run_wf (i : parsed_id) (d : database) :
  db_wf d -> db_wf (delete_run i d).
Proof.
  intros [Hnd Hle]. split; simpl.
  - induction (rows d) as [|p l IH]; simpl; auto.
    inversion Hnd as [|x xs Hnot Hnd']; subst.
    inversion Hle as [|y ys Hp Hle']; subst.
    destruct (negb (matches i p)); simpl; auto. constructor; auto.
    intros Hin. apply Hnot. apply in_map_iff in Hin.
    destruct Hin as (q & Eq & Hq). apply filter_In in Hq.
    apply in_map_iff. exists q. tauto.
  - apply Forall_forall. intros p Hp. apply filter_In in Hp.
    rewrite Forall_forall in Hle. apply Hle. tauto.
Qed.

Lemma handle_wf (r : request) (w : world) :
  db_wf (db w) -> db_wf (db (snd (handle r w))).
Proof.
  intros Hwf. destruct r as [|t c cat|b|i t c cat|i]; simpl; auto.
  - unfold post_prompt. destruct (negb (truthy t) || negb (truthy c)); auto.
    destruct (insert_run _ _ _ _ _) as [[i d']|e] eqn:E; auto.
    simpl. rewrite broadcast_db. eapply insert_run_wf; eauto.
  - destruct b as [|l]; simpl; auto. unfold insertMany.
    destruct (insert_each _ _ _) as [d'|e] eqn:E; auto.
    simpl. rewrite broadcast_db. eapply insert_each_wf; eauto.
  - unfold put_prompt.
    destruct (update_run _ _ _ _ _ _) as [[n d']|e] eqn:E; auto.
    destruct (n =? 0)%nat; simpl; [|rewrite broadcast_db];
      eapply update_run_wf; eauto.
  - rewrite broadcast_db. now apply delete_run_wf.
Qed.

Lemma seed_wf (ts : N) (d : database) : db_wf d -> db_wf (seed ts d).
Proof.
  intros Hwf. unfold seed. destruct (select_count d =? 0)%nat; [|exact Hwf].
  rewrite !insert_run_text. cbn [obind snd].
  rewrite !insert_run_text. cbn [obind snd].
  repeat (eapply insert_run_wf; [|apply insert_run_text]). exact Hwf.
Qed.

Lemma iter_beat_db (k : nat) (w : world) : db (Nat.iter k beat w) = db w.
Proof.
  induction k as [|k IH]; [reflexivity|].
  change (Nat.iter (S k) beat w) with (beat (Nat.iter k beat w)).
  exact IH.
Qed.

Lemma db_wf_step (i : input) (w : world) :
  db_wf (db w) -> db_wf (db (step i w)).
Proof.
  intros Hwf. destruct i as [r| |c|c|c|dt]; simpl; auto.
  - now apply handle_wf.
  - now rewrite iter_beat_db.
Qed.

(** X21. Every state the server reaches from its startup on a well-formed
    database file satisfies the side conditions of the statements above:
    record ids are unique and bounded by the AUTOINCREMENT counter, socket
    identities are unique and older than the next one. *)
Lemma reachable_wf (d : database) (ins : list input) :
  db_wf d ->
  db_wf (db (run ins (startup d))) /\ sockets_wf (run ins (startup d)).
Proof.
  intros Hd.
  assert (H0 : db_wf (db (startup d)) /\ sockets_wf (startup d)).
  { split; [now apply seed_wf|]. split; simpl; constructor. }
  revert H0. generalize (startup d). induction ins as [|i ins IH]; [auto|].
  intros w [Hdb Hs]. rewrite run_cons. apply IH.
  split; [now apply db_wf_step | now apply sockets_wf_step].
Qed.

(** A batch with a [null] element, or with a row whose title or content is
    [null] or absent, is rolled back as a whole: the answer is 500 and the
    server state is what it was. *)
Lemma import_rolls_back (l : list import_row) (w : world) :
  existsb (fun r => match r with
                    | RowNull => true
                    | RowObject t c _ =>
                        match bind t, bind c with
                        | Some _, Some _ => false
                        | _, _ => true
                        end
                    end) l = true ->
  import_prompts (ArrayBody l) w
  = (respond 500 (ErrorBody "导入提示词失败"), w).
Proof.
  intros H. simpl. unfold insertMany.
  assert (Hthrow : forall d, exists e,
             insert_each l (CURRENT_TIMESTAMP w) d = Throws e).
  { induction l as [|r l IH]; [discriminate|]. intros d. simpl in *.
    destruct r as [|t c cat]; [eauto|]. unfold insert_run.
    destruct (bind t), (bind c); simpl in *; eauto. }
  destruct (Hthrow (db w)) as [e ->]. reflexivity.
Qed.

(** On a new connection the handler serializes the table as it is scanned
    and sends it to the new socket only. *)
Lemma on_connection_emitted (w : world) :
  emitted w (on_connection w)
  = stamp (now w)
      [Stringify (initial_data (select_all (db w)));
       Send (next_sock w) (JSON_stringify (initial_data (select_all (db w))))].
Proof. apply emitted_app. reflexivity. Qed.

(** ** The handlers at concrete requests *)

(** C1. The import route checks no row: a batch of five whose third row has
    an empty title is stored in full, answered 200 with count 5, and
    announced, where the claim has it rejected as a whole. (Only a [null]
    or absent title or content makes the transaction fail,
    [import_rolls_back].) *)
Theorem import_accepts_empty_title :
  let batch :=
    [RowObject (JString "t1") (JString "c1") JUndefined;
     RowObject (JString "t2") (JString "c2") JUndefined;
     RowObject (JString EmptyString) (JString "c3") JUndefined;
     RowObject (JString "t4") (JString "c4") JUndefined;
     RowObject (JString "t5") (JString "c5") JUndefined] in
  let w := on_connection (startup empty_database) in
  let r := import_prompts (ArrayBody batch) w in
  fst r = respond 200 (SuccessCount 5) /\
  map title (skipn 3 (select_all (db (snd r))))
  = ["t1"; "t2"; EmptyString; "t4"; "t5"] /\
  List.length (select_ordered (db (snd r)))
  = List.length (select_ordered (db w)) + 5 /\
  serialized w (snd r) = [prompts_imported 5] /\
  post_prompt (JString EmptyString) (JString "c3") JUndefined w
  = (respond 400 (ErrorBody "标题和内容不能为空"), w).
Proof. vm_compute. repeat split. Qed.

(** C3. The snapshot sent to a new connection is the table in rowid order,
    not the listing of [GET /api/prompts]: after the third sample row has
    been updated, the listing starts with it and the snapshot does not. *)
Theorem snapshot_in_table_order :
  let w := run [Wait 5000;
                Http (PUT_prompt (Some 3%Z) (JString "T2") (JString "C2")
                                 (JString "X"))]
               (startup empty_database) in
  let w' := on_connection w in
  emitted w w'
  = [(5000%N, Stringify (initial_data (select_all (db w))));
     (5000%N, Send 0 (JSON_stringify (initial_data (select_all (db w)))))] /\
  map id (select_all (db w)) = [1%Z; 2%Z; 3%Z] /\
  map id (select_ordered (db w)) = [3%Z; 1%Z; 2%Z] /\
  fst (get_prompts w) = respond 200 (PromptsBody (select_ordered (db w))).
Proof. vm_compute. repeat split. Qed.

(** C2, counterexample. With one viewer connected, deleting id 99, which no
    record has, succeeds and leaves the store alone, and a [prompt_deleted]
    message goes out to the viewer. *)
Lemma delete_absent_counterexample :
  let w := on_connection (startup empty_database) in
  let r := delete_prompt (Some 99%Z) w in
  select_by_param (Some 99%Z) (db w) = None /\
  fst r = respond 200 SuccessBody /\
  db (snd r) = db w /\
  emitted w (snd r)
  = [(0%N, Stringify (prompt_deleted (Some 99%Z)));
     (0%N, Send 0 (JSON_stringify (prompt_deleted (Some 99%Z))))] /\
  serialized w (snd r) <> [].
Proof. vm_compute. repeat split. discriminate. Qed.

(** C6, counterexample. A record created and updated within the same second
    has [updated_at] equal to [created_at] after the update, not later. *)
Lemma put_same_second_counterexample :
  let w := run [Wait 1200;
                Http (POST_prompts (JString "T") (JString "C") JUndefined);
                Wait 400]
               (startup empty_database) in
  let r := put_prompt (Some 4%Z) (JString "T2") (JString "C2") (JString "X")
                      w in
  exists p,
    select_by_id 4 (db w)
    = Some {| id := 4; title := "T"; content := "C";
              category := Some "General"; created_at := 1; updated_at := 1 |} /\
    fst r = respond 200 SuccessBody /\
    select_by_id 4 (db (snd r)) = Some p /\
    title p = "T2" /\
    ~ (created_at p < updated_at p)%N.
Proof.
  eexists. vm_compute. repeat split. discriminate.
Qed.

(** ** The theorems at concrete inputs *)

Lemma delete_absent_still_publishes_witness :
  let w := on_connection (startup empty_database) in
  let r := delete_prompt (Some 99%Z) w in
  select_by_param (Some 99%Z) (db w) = None /\
  fst r = respond 200 SuccessBody /\
  db (snd r) = db w /\
  serialized w (snd r) = [prompt_deleted (Some 99%Z)].
Proof.
  split; [reflexivity|].
  pose proof (delete_absent_still_publishes (Some 99%Z)
                (on_connection (startup empty_database)) eq_refl) as H.
  split; [exact (proj1 H)|].
  split; [exact (proj1 (proj2 H)) | exact (proj1 (proj2 (proj2 H)))].
Defined.

Lemma import_valid_batch_witness :
  let l := [RowObject (JString "t1") (JString "c1") JUndefined;
            RowObject (JString "t2") (JString "c2") (JString "X")] in
  let w := on_connection (startup empty_database) in
  let r := import_prompts (ArrayBody l) w in
  forallb valid_row l = true /\
  fst r = respond 200 (SuccessCount 2) /\
  List.length (select_ordered (db (snd r)))
  = List.length (select_ordered (db w)) + 2 /\
  serialized w (snd r) = [prompts_imported 2].
Proof.
  split; [reflexivity|].
  pose proof (import_valid_batch
                [RowObject (JString "t1") (JString "c1") JUndefined;
                 RowObject (JString "t2") (JString "c2") (JString "X")]
                (on_connection (startup empty_database)) eq_refl) as H.
  split; [exact (proj1 H)|].
  split; [exact (proj1 (proj2 H)) | exact (proj1 (proj2 (proj2 H)))].
Defined.

Lemma post_prompt_validates_witness :
  let w := startup empty_database in
  db_wf (db w) /\
  (exists p,
      fst (post_prompt (JString "T") (JString "C") JUndefined w)
      = respond 201 (SuccessId (id p)) /\
      ~ In (id p) (map id (rows (db w))) /\
      category p = Some "General") /\
  fst (post_prompt JUndefined (JString "C") JUndefined w)
  = respond 400 (ErrorBody "标题和内容不能为空") /\
  snd (post_prompt JUndefined (JString "C") JUndefined w) = w.
Proof.
  assert (Hwf : db_wf (db (startup empty_database))).
  { split; simpl.
    - repeat (constructor; [simpl; intuition discriminate|]). constructor.
    - repeat (constructor; [simpl; lia|]). constructor. }
  split; [exact Hwf|]. split.
  - pose proof (post_prompt_validates (JString "T") (JString "C") JUndefined
                  (startup empty_database) Hwf) as H.
    cbn [truthy String.eqb negb andb] in H.
    destruct H as (p & H1 & H2 & _ & _ & _ & _ & _ & H3 & _).
    exists p. split; [exact H1|]. split; [exact H2 | exact H3].
  - pose proof (post_prompt_validates JUndefined (JString "C") JUndefined
                  (startup empty_database) Hwf) as H.
    cbn [truthy andb] in H. exact H.
Defined.

Lemma put_prompt_overwrites_witness :
  let w := run [Wait 5000] (startup empty_database) in
  let r := put_prompt (Some 1%Z) (JString "T2") (JString "C2") (JString "X")
                      w in
  bind (JString "T2") = Some "T2" /\
  bind (JString "C2") = Some "C2" /\
  fst r = respond 200 SuccessBody /\
  select_by_param (Some 1%Z) (db (snd r))
  = Some {| id := 1; title := "T2"; content := "C2"; category := Some "X";
            created_at := 0; updated_at := 5 |} /\
  fst (put_prompt (Some 99%Z) (JString "T2") (JString "C2") (JString "X") w)
  = respond 404 (ErrorBody "提示词未找到").
Proof.
  split; [reflexivity|]. split; [reflexivity|].
  pose proof (put_prompt_overwrites (Some 1%Z) (JString "T2") (JString "C2")
                (JString "X") (run [Wait 5000] (startup empty_database))
                "T2" "C2" eq_refl eq_refl) as H.
  split; [exact (proj1 H)|]. split; [exact (proj1 (proj2 H))|].
  exact (proj1 (put_prompt_overwrites (Some 99%Z) (JString "T2") (JString "C2")
                  (JString "X") (run [Wait 5000] (startup empty_database)))).
Defined.

(** ** Further properties of the routes *)

Lemma insert_desc_perm (p : prompt) (l : list prompt) :
  Permutation (p :: l) (insert_desc p l).
Proof.
  induction l as [|q r IH]; simpl; [reflexivity|].
  destruct (updated_at q <=? updated_at p)%N; [reflexivity|].
  rewrite perm_swap. now constructor.
Qed.

Lemma select_ordered_perm (d : database) :
  Permutation (rows d) (select_ordered d).
Proof.
  unfold select_ordered. induction (rows d) as [|p l IH]; simpl; [constructor|].
  rewrite <- insert_desc_perm. now constructor.
Qed.

Lemma insert_desc_hd (p q : prompt) (l : list prompt) :
  HdRel newer_first q l -> newer_first q p ->
  HdRel newer_first q (insert_desc p l).
Proof.
  intros Hhd Hqp. destruct l as [|x r]; simpl; [now constructor|].
  destruct (updated_at x <=? updated_at p)%N; constructor; auto.
  now inversion Hhd.
Qed.

Lemma insert_desc_sorted (p : prompt) (l : list prompt) :
  Sorted newer_first l -> Sorted newer_first (insert_desc p l).
Proof.
  induction l as [|q r IH]; simpl; intros Hs.
  - repeat constructor.
  - inversion Hs as [|x xs Hr Hhd]; subst.
    destruct (N.leb_spec (updated_at q) (updated_at p)) as [Hle|Hlt].
    + constructor; [exact Hs|]. constructor. exact Hle.
    + constructor; [now apply IH|].
      apply insert_desc_hd; [exact Hhd|]. unfold newer_first. lia.
Qed.

Lemma select_ordered_sorted (d : database) :
  Sorted newer_first (select_ordered d).
Proof.
  unfold select_ordered. induction (rows d) as [|p l IH]; simpl.
  - constructor.
  - now apply insert_desc_sorted.
Qed.

(** X1. The listing route changes nothing and answers 200 with the table's
    records, each exactly once, most recently updated first. *)
Theorem get_prompts_sorted_permutation (w : world) :
  snd (get_prompts w) = w /\
  exists l,
    fst (get_prompts w) = respond 200 (PromptsBody l) /\
    Permutation (rows (db w)) l /\
    Sorted newer_first l.
Proof.
  split; [reflexivity|]. exists (select_ordered (db w)).
  split; [reflexivity|].
  split; [apply select_ordered_perm | apply select_ordered_sorted].
Qed.

Lemma category_eqb_eq (a b : option string) :
  category_eqb a b = true <-> a = b.
Proof.
  destruct a as [x|], b as [y|]; simpl; split; intros H;
    try discriminate; try reflexivity.
  - apply String.eqb_eq in H. now subst.
  - injection H as ->. apply String.eqb_refl.
Qed.

Lemma distinct_in (x : option string) (l : list (option string)) :
  In x (distinct l) <-> In x l.
Proof.
  induction l as [|y r IH]; simpl; [tauto|].
  rewrite filter_In, IH. split.
  - intros [H|[H _]]; auto.
  - intros [H|H]; auto.
    destruct (category_eqb y x) eqn:E.
    + left. now apply category_eqb_eq.
    + right. auto.
Qed.

Lemma distinct_nodup (l : list (option string)) : NoDup (distinct l).
Proof.
  induction l as [|y r IH]; simpl; constructor.
  - rewrite filter_In. intros [_ H].
    assert (E : category_eqb y y = true) by now apply category_eqb_eq.
    now rewrite E in H.
  - now apply NoDup_filter.
Qed.

(** X2. The categories route changes nothing and answers 200 with the
    category values in use: no value twice, and a value is listed exactly
    when some record has it (NULL included). *)
Theorem get_categories_distinct (w : world) :
  snd (get_categories w) = w /\
  categories_status (fst (get_categories w)) = 200 /\
  NoDup (categories_body (fst (get_categories w))) /\
  forall c, In c (categories_body (fst (get_categories w))) <->
            exists p, In p (rows (db w)) /\ category p = c.
Proof.
  split; [reflexivity|]. split; [reflexivity|]. simpl. split.
  - apply distinct_nodup.
  - intros c. unfold select_distinct_category.
    rewrite distinct_in, in_map_iff. split.
    + intros (p & E & Hin). eauto.
    + intros (p & Hin & E). eauto.
Qed.

(** X3. The sample rows are added only to an empty table. Seeding a table
    that has a row leaves the database exactly as it is; seeding an empty
    table stores the three sample rows, with the next three ids and the
    current timestamp. So seeding again (a restart) never adds to what a
    first seeding left. *)
Theorem seed_once (ts ts' : N) (d : database) :
  seed ts' (seed ts d) = seed ts d /\
  if (select_count d =? 0)%nat then
    seed ts d
    = {| rows :=
           [{| id := (sqlite_sequence d + 1)%Z; title := "翻译助手";
               content := "将以下英文翻译成中文：";
               category := Some "工具";
               created_at := ts; updated_at := ts |};
            {| id := (sqlite_sequence d + 2)%Z; title := "写作助手";
               content := "请帮助我写一篇关于{主题}的文章，要求：";
               category := Some "创作";
               created_at := ts; updated_at := ts |};
            {| id := (sqlite_sequence d + 3)%Z; title := "代码助手";
               content := "请解释以下代码的功能：";
               category := Some "开发";
               created_at := ts; updated_at := ts |}];
         sqlite_sequence := (sqlite_sequence d + 3)%Z |}
  else seed ts d = d.
Proof.
  destruct d as [[|p l] s]; (split; [reflexivity|]); [|reflexivity].
  cbn [select_count rows List.length Nat.eqb sqlite_sequence].
  unfold seed. cbn [select_count rows List.length Nat.eqb].
  rewrite !insert_run_text. cbn [obind snd].
  rewrite !insert_run_text. cbn [obind snd].
  rewrite !insert_run_text. cbn [snd rows sqlite_sequence app bind].
  replace (s + 1 + 1 + 1)%Z with (s + 3)%Z by lia.
  replace (s + 1 + 1)%Z with (s + 2)%Z by lia.
  reflexivity.
Qed.

Lemma update_run_unchanged (t c cat : jsval) (i : parsed_id) (ts : N)
    (d d' : database) :
  update_run t c cat i ts d = Returns (0, d') -> d' = d.
Proof.
  unfold update_run. destruct (filter (matches i) (rows d)) as [|h hit].
  - intros H. now injection H as <-.
  - destruct (bind t), (bind c); discriminate.
Qed.

(** X4. A request that is answered with an error status (400, 404 or 500)
    leaves the whole server state as it was: nothing is stored and nothing
    is sent. *)
Theorem failed_request_changes_nothing (r : request) (w : world) :
  400 <= status (fst (handle r w)) -> snd (handle r w) = w.
Proof.
  destruct r as [|t c cat|b|i t c cat|i]; simpl.
  - reflexivity.
  - unfold post_prompt.
    destruct (negb (truthy t) || negb (truthy c)); [reflexivity|].
    destruct (insert_run _ _ _ _ _) as [[z d']|e]; simpl; [lia | reflexivity].
  - destruct b as [|l]; simpl; [reflexivity|].
    destruct (insertMany _ _ _) as [d'|e]; simpl; [lia | reflexivity].
  - unfold put_prompt.
    destruct (update_run _ _ _ _ _ _) as [[n d']|e] eqn:E; [|reflexivity].
    destruct n as [|n]; simpl; [|lia]. intros _.
    rewrite (update_run_unchanged _ _ _ _ _ _ _ E). apply set_db_same.
  - lia.
Qed.

Lemma failed_request_changes_nothing_witness :
  let w := on_connection (startup empty_database) in
  let r := PUT_prompt (Some 99%Z) (JString "T") (JString "C") JNull in
  400 <= status (fst (handle r w)) /\ snd (handle r w) = w.
Proof.
  split; [vm_compute; lia|].
  apply (failed_request_changes_nothing
           (PUT_prompt (Some 99%Z) (JString "T") (JString "C") JNull)
           (on_connection (startup empty_database))).
  vm_compute. lia.
Defined.

(** X5. A request that is answered 200 or 201 announces itself with exactly
    one broadcast on the mutating routes and with nothing on the listing
    route; the record a create or an update announces is the one read back
    from the store after the write. *)
Theorem successful_request_announced_once (r : request) (w : world) :
  let res := fst (handle r w) in
  let w' := snd (handle r w) in
  status res < 400 ->
  match announcement r res (db w') with
  | Some m =>
      serialized w w' = [m] /\
      emitted w w' = stamp (now w) (broadcast_effects m (wss_clients w))
  | None => r = GET_prompts /\ emitted w w' = []
  end.
Proof.
  destruct r as [|t c cat|b|i t c cat|i]; simpl.
  - intros _. split; [reflexivity | apply emitted_refl].
  - unfold post_prompt.
    destruct (negb (truthy t) || negb (truthy c)); simpl; [lia|].
    destruct (insert_run _ _ _ _ _) as [[z d']|e]; simpl; [|lia].
    intros _. unfold announcement. simpl. rewrite broadcast_db. simpl.
    split; [apply serialized_broadcast | apply broadcast_set_db_emitted].
  - destruct b as [|l]; simpl; [lia|].
    destruct (insertMany _ _ _) as [d'|e]; simpl; [|lia].
    intros _. unfold announcement. simpl.
    split; [apply serialized_broadcast | apply broadcast_set_db_emitted].
  - unfold put_prompt.
    destruct (update_run _ _ _ _ _ _) as [[n d']|e]; simpl; [|lia].
    destruct n as [|n]; simpl; [lia|].
    intros _. unfold announcement. simpl. rewrite broadcast_db. simpl.
    split; [apply serialized_broadcast | apply broadcast_set_db_emitted].
  - intros _. unfold announcement. simpl.
    split; [apply serialized_broadcast | apply broadcast_set_db_emitted].
Qed.

Lemma successful_request_announced_once_witness :
  let w := on_connection (startup empty_database) in
  let r := POST_prompts (JString "T") (JString "C") JUndefined in
  status (fst (handle r w)) < 400 /\
  serialized w (snd (handle r w))
  = [prompt_created (select_by_id 4 (db (snd (handle r w))))].
Proof.
  split; [vm_compute; lia|].
  exact (proj1 (successful_request_announced_once
                  (POST_prompts (JString "T") (JString "C") JUndefined)
                  (on_connection (startup empty_database))
                  ltac:(vm_compute; lia))).
Defined.

Lemma insert_each_storable (l : list import_row) (ts : N) :
  forall d,
    forallb storable l = true ->
    exists d' news,
      insert_each l ts d = Returns d' /\
      rows d' = rows d ++ news /\
      sqlite_sequence d' = (sqlite_sequence d + Z.of_nat (List.length l))%Z /\
      map prompt_fields news = map row_fields l /\
      map id news
      = map (fun k => (sqlite_sequence d + Z.of_nat k)%Z)
            (seq 1 (List.length l)) /\
      Forall (fun p => created_at p = ts /\ updated_at p = ts) news.
Proof.
  induction l as [|r l IH]; intros d H; simpl in H.
  - exists d, []. simpl. rewrite app_nil_r, Z.add_0_r. repeat split; auto.
  - apply andb_true_iff in H. destruct H as [Hr Hl].
    destruct r as [|t c cat]; [discriminate|].
    destruct t as [| |t]; try discriminate.
    destruct c as [| |c]; try discriminate.
    cbn [insert_each]. rewrite insert_run_text. cbn [obind snd].
    set (p := {| id := (sqlite_sequence d + 1)%Z; title := t; content := c;
                 category := bind (js_or cat "General");
                 created_at := ts; updated_at := ts |}).
    set (d1 := {| rows := rows d ++ [p];
                  sqlite_sequence := (sqlite_sequence d + 1)%Z |}).
    destruct (IH d1 Hl) as (d' & news & Hd' & Hrows & Hseq & Hf & Hid & Hts).
    exists d', (p :: news). split; [exact Hd'|].
    split; [rewrite Hrows; simpl; now rewrite <- app_assoc|].
    split; [rewrite Hseq; simpl sqlite_sequence; cbn [List.length]; lia|].
    split; [simpl; now rewrite Hf|].
    split.
    + cbn [List.length seq map]. f_equal.
      rewrite <- (seq_shift (List.length l) 1), map_map, Hid.
      apply map_ext. intros k. simpl sqlite_sequence. lia.
    + constructor; auto.
Qed.

Lemma insert_each_unstorable (l : list import_row) (ts : N) :
  forall d,
    forallb storable l = false -> exists e, insert_each l ts d = Throws e.
Proof.
  induction l as [|r l IH]; intros d H; simpl in H; [discriminate|].
  destruct r as [|t c cat]; [simpl; eauto|].
  destruct t as [| |t]; [simpl; eauto | simpl; eauto |].
  destruct c as [| |c]; [simpl; eauto | simpl; eauto |].
  simpl in H. cbn [insert_each]. rewrite insert_run_text. cbn [obind snd].
  now apply IH.
Qed.

(** X6. An import is all or nothing, whatever the array holds. If every
    element is an object with a string title and a string content, the
    answer is 200 with the count, the new rows are appended after the
    existing ones, which stay as they were, and one message is broadcast.
    Otherwise the answer is 500 and the server state is as before: no row
    of the batch is stored, not even those before the offending one. *)
Theorem import_all_or_nothing (l : list import_row) (w : world) :
  let r := import_prompts (ArrayBody l) w in
  if forallb storable l then
    fst r = respond 200 (SuccessCount (List.length l)) /\
    (exists news, rows (db (snd r)) = rows (db w) ++ news /\
                  List.length news = List.length l) /\
    serialized w (snd r) = [prompts_imported (List.length l)]
  else
    fst r = respond 500 (ErrorBody "导入提示词失败") /\ snd r = w.
Proof.
  simpl. unfold insertMany. destruct (forallb storable l) eqn:E.
  - destruct (insert_each_storable l (CURRENT_TIMESTAMP w) (db w) E)
      as (d' & news & -> & Hrows & _ & Hf & _).
    simpl. rewrite broadcast_db. simpl.
    split; [reflexivity|]. split; [|apply serialized_broadcast].
    exists news. split; [exact Hrows|].
    rewrite <- (length_map prompt_fields), Hf. apply length_map.
  - destruct (insert_each_unstorable l (CURRENT_TIMESTAMP w) (db w) E)
      as (e & ->).
    split; reflexivity.
Qed.

(** X7. A successful import stores the rows in the order of the array: the
    k-th element gets the k-th id after the AUTOINCREMENT counter, its own
    title and content, its category or 'General' when that is empty or
    missing, and the current timestamp as both of its times. *)
Theorem import_stores_rows_in_order (l : list import_row) (w : world) :
  forallb storable l = true ->
  let d' := db (snd (import_prompts (ArrayBody l) w)) in
  exists news,
    rows d' = rows (db w) ++ news /\
    map prompt_fields news = map row_fields l /\
    map id news
    = map (fun k => (sqlite_sequence (db w) + Z.of_nat k)%Z)
          (seq 1 (List.length l)) /\
    Forall (fun p => created_at p = CURRENT_TIMESTAMP w /\
                     updated_at p = CURRENT_TIMESTAMP w) news /\
    sqlite_sequence d'
    = (sqlite_sequence (db w) + Z.of_nat (List.length l))%Z.
Proof.
  intros E. simpl. unfold insertMany.
  destruct (insert_each_storable l (CURRENT_TIMESTAMP w) (db w) E)
    as (d' & news & -> & Hrows & Hseq & Hf & Hid & Hts).
  simpl. rewrite broadcast_db. simpl. exists news. auto.
Qed.

Lemma import_stores_rows_in_order_witness :
  let l := [RowObject (JString "t1") (JString "c1") JNull;
            RowObject (JString "t2") (JString "c2") (JString "X")] in
  let w := startup empty_database in
  forallb storable l = true /\
  exists news,
    rows (db (snd (import_prompts (ArrayBody l) w))) = rows (db w) ++ news /\
    map prompt_fields news
    = [("t1", "c1", Some "General"); ("t2", "c2", Some "X")] /\
    map id news = [4%Z; 5%Z].
Proof.
  split; [reflexivity|].
  destruct (import_stores_rows_in_order
              [RowObject (JString "t1") (JString "c1") JNull;
               RowObject (JString "t2") (JString "c2") (JString "X")]
              (startup empty_database) eq_refl)
    as (news & H1 & H2 & H3 & _).
  exists news. split; [exact H1|]. split; [exact H2 | exact H3].
Defined.

Lemma find_filter_none (z : Z) (l : list prompt) :
  find (fun p => (id p =? z)%Z)
       (filter (fun p => negb (id p =? z)%Z) l) = None.
Proof.
  induction l as [|q r IH]; simpl; auto.
  destruct (id q =? z)%Z eqn:E; simpl; auto. now rewrite E.
Qed.

Lemma find_filter_other (z z' : Z) (l : list prompt) :
  z' <> z ->
  find (fun p => (id p =? z')%Z)
       (filter (fun p => negb (id p =? z)%Z) l)
  = find (fun p => (id p =? z')%Z) l.
Proof.
  intros Hne. induction l as [|q r IH]; simpl; auto.
  destruct (Z.eqb_spec (id q) z); simpl.
  - destruct (Z.eqb_spec (id q) z'); [congruence | exact IH].
  - destruct (id q =? z')%Z; auto.
Qed.

Lemma filter_idem {A : Type} (f : A -> bool) (l : list A) :
  filter f (filter f l) = filter f l.
Proof.
  induction l as [|a l IH]; simpl; auto.
  destruct (f a) eqn:E; simpl; [rewrite E, IH|]; auto.
Qed.

Lemma filter_id_absent (z : Z) (l : list prompt) :
  ~ In z (map id l) -> filter (fun p => negb (id p =? z)%Z) l = l.
Proof.
  induction l as [|q r IH]; simpl; auto.
  intros H. destruct (Z.eqb_spec (id q) z); [tauto|].
  simpl. rewrite IH; tauto.
Qed.

Lemma delete_removes_one (z : Z) (p : prompt) (l : list prompt) :
  NoDup (map id l) ->
  find (fun q => (id q =? z)%Z) l = Some p ->
  exists l1 l2,
    l = l1 ++ p :: l2 /\
    filter (fun q => negb (id q =? z)%Z) l = l1 ++ l2.
Proof.
  induction l as [|q r IH]; simpl; [discriminate|].
  intros Hnd Hf. inversion Hnd as [|x xs Hnot Hnd']; subst.
  destruct (Z.eqb_spec (id q) z) as [E|E]; simpl.
  - injection Hf as <-. exists [], r. split; [reflexivity|].
    simpl. apply filter_id_absent. now rewrite <- E.
  - destruct (IH Hnd' Hf) as (l1 & l2 & -> & Hfl).
    exists (q :: l1), l2. simpl. now rewrite Hfl.
Qed.

(** X8. Deleting the id of an existing record answers 200, removes that
    record and no other (the remaining rows keep their order and content),
    leaves the AUTOINCREMENT counter alone, and broadcasts one
    [prompt_deleted] message with the id. *)
Theorem delete_existing_removes_it
    (z : Z) (p : prompt) (w : world) :
  db_wf (db w) ->
  select_by_id z (db w) = Some p ->
  let r := delete_prompt (Some z) w in
  fst r = respond 200 SuccessBody /\
  (exists l1 l2, rows (db w) = l1 ++ p :: l2 /\
                 rows (db (snd r)) = l1 ++ l2) /\
  select_by_id z (db (snd r)) = None /\
  (forall z', z' <> z ->
              select_by_id z' (db (snd r)) = select_by_id z' (db w)) /\
  sqlite_sequence (db (snd r)) = sqlite_sequence (db w) /\
  serialized w (snd r) = [prompt_deleted (Some z)].
Proof.
  intros [Hnd _] Hsel. simpl. rewrite broadcast_db. simpl.
  split; [reflexivity|].
  split; [now apply delete_removes_one|].
  split; [apply find_filter_none|].
  split; [intros z' Hne; now apply find_filter_other|].
  split; [reflexivity | apply serialized_broadcast].
Qed.

Lemma delete_existing_removes_it_witness :
  let w := startup empty_database in
  let r := delete_prompt (Some 2%Z) w in
  db_wf (db w) /\
  (exists p, select_by_id 2 (db w) = Some p) /\
  map id (rows (db (snd r))) = [1%Z; 3%Z] /\
  select_by_id 2 (db (snd r)) = None.
Proof.
  assert (Hwf : db_wf (db (startup empty_database))).
  { split; simpl.
    - repeat (constructor; [simpl; intuition discriminate|]). constructor.
    - repeat (constructor; [simpl; lia|]). constructor. }
  split; [exact Hwf|]. split; [eexists; reflexivity|].
  split; [reflexivity|].
  exact (proj1 (proj2 (proj2
           (delete_existing_removes_it 2 _ (startup empty_database)
              Hwf eq_refl)))).
Defined.

(** X9. After a delete the id has no record, whatever the store held, and
    deleting the same id again leaves the store exactly as the first
    delete left it. *)
Theorem delete_twice_same_store (i : parsed_id) (w : world) :
  let w1 := snd (delete_prompt i w) in
  let w2 := snd (delete_prompt i w1) in
  select_by_param i (db w1) = None /\ db w2 = db w1.
Proof.
  simpl. rewrite !broadcast_db. simpl. split.
  - destruct i as [z|]; simpl; [apply find_filter_none | reflexivity].
  - unfold delete_run. simpl. now rewrite filter_idem.
Qed.

(** X10. Lookup by id finds every stored record: in a store with unique
    ids, a record of the table is what [SELECT ... WHERE id = ?] returns for
    its id, and whatever that query returns is a record of the table with
    that id. *)
Theorem select_by_id_finds (d : database) (p : prompt) :
  db_wf d ->
  In p (rows d) <-> select_by_id (id p) d = Some p.
Proof.
  intros [Hnd _]. unfold select_by_id. split.
  - induction (rows d) as [|q r IH]; simpl; [tauto|].
    inversion Hnd as [|x xs Hnot Hnd']; subst.
    intros [->|Hin].
    + now rewrite Z.eqb_refl.
    + destruct (Z.eqb_spec (id q) (id p)) as [E|E]; [|auto].
      exfalso. apply Hnot. rewrite E. now apply in_map.
  - intros H. apply find_some in H. tauto.
Qed.

Lemma select_by_id_finds_witness :
  let d := db (startup empty_database) in
  let p := {| id := 2; title := "写作助手";
              content := "请帮助我写一篇关于{主题}的文章，要求：";
              category := Some "创作"; created_at := 0; updated_at := 0 |} in
  db_wf d /\ In p (rows d) /\ select_by_id 2 d = Some p.
Proof.
  assert (Hwf : db_wf (db (startup empty_database))).
  { split; simpl.
    - repeat (constructor; [simpl; intuition discriminate|]). constructor.
    - repeat (constructor; [simpl; lia|]). constructor. }
  assert (Hin : In {| id := 2; title := "写作助手";
                      content := "请帮助我写一篇关于{主题}的文章，要求：";
                      category := Some "创作";
                      created_at := 0; updated_at := 0 |}
                   (rows (db (startup empty_database)))).
  { simpl. right. left. reflexivity. }
  split; [exact Hwf|]. split; [exact Hin|].
  exact (proj1 (select_by_id_finds (db (startup empty_database)) _ Hwf) Hin).
Defined.

Lemma post_prompt_accepts (t c cat : jsval) (w : world) :
  truthy t = true -> truthy c = true ->
  let p := {| id := (sqlite_sequence (db w) + 1)%Z;
              title := text_of t; content := text_of c;
              category := stored_category cat;
              created_at := CURRENT_TIMESTAMP w;
              updated_at := CURRENT_TIMESTAMP w |} in
  fst (post_prompt t c cat w)
  = respond 201 (SuccessId (sqlite_sequence (db w) + 1)) /\
  db (snd (post_prompt t c cat w))
  = {| rows := rows (db w) ++ [p];
       sqlite_sequence := (sqlite_sequence (db w) + 1)%Z |}.
Proof.
  intros Ht Hc. unfold post_prompt. rewrite Ht, Hc. simpl.
  destruct t as [| |t]; try discriminate.
  destruct c as [| |c]; try discriminate.
  rewrite insert_run_text. simpl. rewrite broadcast_db. auto.
Qed.

(** X11. A record that has just been created is there for everyone: the
    listing route returns it, and a viewer that connects next receives it
    in its snapshot. It carries the title and content of the request and
    the category of the request, or 'General' when that is empty or
    missing. *)
Theorem created_record_is_served (t c cat : jsval) (w : world) :
  truthy t = true -> truthy c = true ->
  let w' := snd (post_prompt t c cat w) in
  exists p l,
    prompt_fields p = (text_of t, text_of c, stored_category cat) /\
    fst (get_prompts w') = respond 200 (PromptsBody l) /\ In p l /\
    emitted w' (on_connection w')
    = stamp (now w')
        [Stringify (initial_data (select_all (db w')));
         Send (next_sock w')
              (JSON_stringify (initial_data (select_all (db w'))))] /\
    In p (select_all (db w')).
Proof.
  intros Ht Hc. simpl.
  destruct (post_prompt_accepts t c cat w Ht Hc) as [_ Hdb].
  set (w' := snd (post_prompt t c cat w)) in *.
  assert (Hin : In {| id := (sqlite_sequence (db w) + 1)%Z;
                      title := text_of t; content := text_of c;
                      category := stored_category cat;
                      created_at := CURRENT_TIMESTAMP w;
                      updated_at := CURRENT_TIMESTAMP w |} (rows (db w'))).
  { rewrite Hdb. simpl. apply in_or_app. right. now left. }
  eexists. exists (select_ordered (db w')).
  split; [|split; [reflexivity|]].
  2: { split.
       - eapply Permutation_in; [apply select_ordered_perm | exact Hin].
       - split; [apply on_connection_emitted | exact Hin]. }
  reflexivity.
Qed.

Lemma created_record_is_served_witness :
  let w' := snd (post_prompt (JString "T") (JString "C") JUndefined
                             (startup empty_database)) in
  truthy (JString "T") = true /\ truthy (JString "C") = true /\
  exists p l,
    prompt_fields p = ("T", "C", Some "General") /\
    fst (get_prompts w') = respond 200 (PromptsBody l) /\ In p l.
Proof.
  split; [reflexivity|]. split; [reflexivity|].
  destruct (created_record_is_served (JString "T") (JString "C") JUndefined
              (startup empty_database) eq_refl eq_refl)
    as (p & l & H1 & H2 & H3 & _).
  exists p, l. split; [exact H1|]. split; [exact H2 | exact H3].
Defined.

Lemma insert_each_seq (l : list import_row) (ts : N) :
  forall d d', insert_each l ts d = Returns d' ->
               (sqlite_sequence d <= sqlite_sequence d')%Z.
Proof.
  induction l as [|r l IH]; intros d d' H; simpl in H.
  - injection H as <-. lia.
  - destruct r as [|t c cat]; [discriminate|]. unfold insert_run in H.
    destruct (bind t), (bind c); try discriminate. simpl in H.
    apply IH in H. simpl in H. lia.
Qed.

Lemma handle_seq (r : request) (w : world) :
  (sqlite_sequence (db w) <= sqlite_sequence (db (snd (handle r w))))%Z.
Proof.
  destruct r as [|t c cat|b|i t c cat|i]; simpl; try lia.
  - unfold post_prompt.
    destruct (negb (truthy t) || negb (truthy c)); [simpl; lia|].
    unfold insert_run. destruct (bind t), (bind c); simpl; try lia.
    rewrite broadcast_db. simpl. lia.
  - destruct b as [|l]; simpl; [lia|]. unfold insertMany.
    destruct (insert_each _ _ _) as [d'|e] eqn:E; simpl; [|lia].
    rewrite broadcast_db. simpl. now apply insert_each_seq in E.
  - unfold put_prompt, update_run.
    destruct (filter (matches i) (rows (db w))); simpl; [lia|].
    destruct (bind t), (bind c); simpl; try lia.
    rewrite broadcast_db. simpl. lia.
  - rewrite broadcast_db. simpl. lia.
Qed.

Lemma step_seq (i : input) (w : world) :
  (sqlite_sequence (db w) <= sqlite_sequence (db (step i w)))%Z.
Proof.
  destruct i as [r| |c|c|c|dt]; simpl; try lia.
  - apply handle_seq.
  - rewrite iter_beat_db. lia.
Qed.

Lemma run_seq (ins : list input) :
  forall w, (sqlite_sequence (db w) <= sqlite_sequence (db (run ins w)))%Z.
Proof.
  induction ins as [|i ins IH]; intros w; [simpl; lia|].
  rewrite run_cons. pose proof (step_seq i w). pose proof (IH (step i w)). lia.
Qed.

(** X12. Ids are never reused: whatever the server handles in between,
    deletes included, a record created later gets an id larger than the id
    of every record that ever was in the table. *)
Theorem ids_never_reused
    (p : prompt) (ins : list input) (t c cat : jsval) (w : world) :
  db_wf (db w) -> In p (rows (db w)) ->
  truthy t = true -> truthy c = true ->
  exists z,
    fst (post_prompt t c cat (run ins w)) = respond 201 (SuccessId z) /\
    (id p < z)%Z.
Proof.
  intros [_ Hle] Hin Ht Hc.
  destruct (post_prompt_accepts t c cat (run ins w) Ht Hc) as [Hres _].
  eexists. split; [exact Hres|].
  rewrite Forall_forall in Hle. specialize (Hle p Hin).
  pose proof (run_seq ins w). lia.
Qed.

Lemma ids_never_reused_witness :
  let w := startup empty_database in
  let ins := [Http (DELETE_prompt (Some 3%Z)); Wait 1000] in
  db_wf (db w) /\
  truthy (JString "T") = true /\ truthy (JString "C") = true /\
  (exists p, In p (rows (db w)) /\ id p = 3%Z /\
   exists z,
     fst (post_prompt (JString "T") (JString "C") JNull (run ins w))
     = respond 201 (SuccessId z) /\ (3 < z)%Z).
Proof.
  assert (Hwf : db_wf (db (startup empty_database))).
  { split; simpl.
    - repeat (constructor; [simpl; intuition discriminate|]). constructor.
    - repeat (constructor; [simpl; lia|]). constructor. }
  split; [exact Hwf|]. split; [reflexivity|]. split; [reflexivity|].
  eexists. split; [simpl; right; right; left; reflexivity|].
  split; [reflexivity|].
  exact (ids_never_reused _ [Http (DELETE_prompt (Some 3%Z)); Wait 1000]
           (JString "T") (JString "C") JNull (startup empty_database)
           Hwf (or_intror (or_intror (or_introl eq_refl))) eq_refl eq_refl).
Defined.

Lemma insert_each_times (l : list import_row) (ts : N) :
  forall d d',
    Forall (fun p => (created_at p <= updated_at p)%N /\
                     (updated_at p <= ts)%N) (rows d) ->
    insert_each l ts d = Returns d' ->
    Forall (fun p => (created_at p <= updated_at p)%N /\
                     (updated_at p <= ts)%N) (rows d').
Proof.
  induction l as [|r l IH]; intros d d' Hd H; simpl in H.
  - now injection H as <-.
  - destruct r as [|t c cat]; [discriminate|]. unfold insert_run in H.
    destruct (bind t), (bind c); try discriminate. simpl in H.
    eapply IH; [|exact H]. simpl. apply Forall_app. split; [exact Hd|].
    constructor; [simpl; lia | constructor].
Qed.

Lemma handle_times_at (r : request) (w : world) (ts : N) :
  CURRENT_TIMESTAMP w = ts ->
  Forall (fun p => (created_at p <= updated_at p)%N /\
                   (updated_at p <= ts)%N) (rows (db w)) ->
  Forall (fun p => (created_at p <= updated_at p)%N /\
                   (updated_at p <= ts)%N) (rows (db (snd (handle r w)))).
Proof.
  intros E H.
  destruct r as [|t c cat|b|i t c cat|i]; simpl; auto.
  - unfold post_prompt. rewrite E.
    destruct (negb (truthy t) || negb (truthy c)); [exact H|].
    unfold insert_run. destruct (bind t), (bind c); simpl; auto.
    rewrite broadcast_db. simpl. apply Forall_app. split; [exact H|].
    constructor; [simpl; lia | constructor].
  - destruct b as [|l]; simpl; [exact H|]. unfold insertMany. rewrite E.
    destruct (insert_each _ _ _) as [d'|e] eqn:E'; simpl; [|exact H].
    rewrite broadcast_db. simpl. eapply insert_each_times; eauto.
  - unfold put_prompt, update_run. rewrite E.
    destruct (filter (matches i) (rows (db w))); simpl; [exact H|].
    destruct (bind t), (bind c); simpl; auto.
    rewrite broadcast_db. simpl. apply Forall_map.
    eapply Forall_impl; [|exact H]. intros q [H1 H2].
    destruct (matches i q); simpl; lia.
  - rewrite broadcast_db. simpl. apply Forall_forall. intros q Hq.
    apply filter_In in Hq. rewrite Forall_forall in H. apply H. tauto.
Qed.

Lemma handle_times (r : request) (w : world) :
  times_wf w -> times_wf (snd (handle r w)).
Proof.
  unfold times_wf. intros H.
  replace (CURRENT_TIMESTAMP (snd (handle r w))) with (CURRENT_TIMESTAMP w)
    by (unfold CURRENT_TIMESTAMP; now destruct (handle_quiet r w) as (-> & _)).
  now apply handle_times_at.
Qed.

Lemma step_times (i : input) (w : world) :
  times_wf w -> times_wf (step i w).
Proof.
  intros H. destruct i as [r| |c|c|c|dt]; try exact H.
  - now apply handle_times.
  - unfold times_wf, CURRENT_TIMESTAMP in *. cbn [step].
    destruct (wait_clock dt w) as [-> _]. unfold wait.
    cbn [db set_now]. rewrite iter_beat_db.
    eapply Forall_impl; [|exact H]. intros q [H1 H2]. split; [exact H1|].
    etransitivity; [exact H2|].
    apply N.Div0.div_le_mono. lia.
Qed.

(** X13. Timestamps stay ordered: from a state where every record was
    created no later than it was last updated and none is from the future,
    every state the server reaches has the same property. *)
Theorem timestamps_stay_ordered (ins : list input) (w : world) :
  times_wf w -> times_wf (run ins w).
Proof.
  revert w. induction ins as [|i ins IH]; intros w H; [exact H|].
  rewrite run_cons. now apply IH, step_times.
Qed.

Lemma timestamps_stay_ordered_witness :
  let w := startup empty_database in
  let ins := [Wait 2500;
              Http (POST_prompts (JString "T") (JString "C") JNull);
              Wait 4000;
              Http (PUT_prompt (Some 1%Z) (JString "T2") (JString "C2") JNull)] in
  times_wf w /\ times_wf (run ins w) /\
  map (fun p => (id p, created_at p, updated_at p)) (rows (db (run ins w)))
  = [(1%Z, 0%N, 6%N); (2%Z, 0%N, 0%N); (3%Z, 0%N, 0%N); (4%Z, 2%N, 2%N)].
Proof.
  assert (H0 : times_wf (startup empty_database)).
  { unfold times_wf. simpl.
    repeat (constructor; [simpl; split; vm_compute; discriminate|]).
    constructor. }
  split; [exact H0|]. split; [|reflexivity].
  exact (timestamps_stay_ordered
           [Wait 2500;
            Http (POST_prompts (JString "T") (JString "C") JNull);
            Wait 4000;
            Http (PUT_prompt (Some 1%Z) (JString "T2") (JString "C2") JNull)]
           (startup empty_database) H0).
Defined.

(** X14. An update never adds or removes a record and never changes an id
    or a creation time, whatever it is asked and whatever it answers. *)
Theorem put_keeps_identity (i : parsed_id) (t c cat : jsval) (w : world) :
  map (fun p => (id p, created_at p))
      (rows (db (snd (put_prompt i t c cat w))))
  = map (fun p => (id p, created_at p)) (rows (db w)).
Proof.
  unfold put_prompt, update_run.
  destruct (filter (matches i) (rows (db w))); simpl; [reflexivity|].
  destruct (bind t), (bind c); simpl; try reflexivity.
  rewrite broadcast_db. simpl. rewrite map_map. apply map_ext.
  intros q. now destruct (matches i q).
Qed.

(** X15. An update of an existing record whose title or content is [null]
    or absent is refused by the table's NOT NULL constraint: the answer is
    500 and the server state is as before. *)
Theorem put_missing_field_rejected
    (i : parsed_id) (p : prompt) (t c cat : jsval) (w : world) :
  select_by_param i (db w) = Some p ->
  bind t = None \/ bind c = None ->
  put_prompt i t c cat w = (respond 500 (ErrorBody "更新提示词失败"), w).
Proof.
  intros Hsel Hb. unfold put_prompt, update_run.
  pose proof (select_param_some_filter _ _ _ Hsel) as Hne.
  destruct (filter (matches i) (rows (db w))); [congruence|].
  destruct Hb as [-> | ->]; [reflexivity|]. now destruct (bind t).
Qed.

Lemma put_missing_field_rejected_witness :
  let w := startup empty_database in
  (exists p, select_by_param (Some 1%Z) (db w) = Some p) /\
  (bind JNull = None \/ bind (JString "C") = None) /\
  put_prompt (Some 1%Z) JNull (JString "C") (JString "X") w
  = (respond 500 (ErrorBody "更新提示词失败"), w).
Proof.
  split; [eexists; reflexivity|]. split; [left; reflexivity|].
  exact (put_missing_field_rejected (Some 1%Z) _ JNull (JString "C")
           (JString "X") (startup empty_database) eq_refl
           (or_introl eq_refl)).
Defined.

(** ** Further properties of the sockets and the heartbeat *)

Lemma broadcast_effects_to_open (t : N) (msg : message) (l : list websocket) :
  forallb (to_open_member l) (stamp t (broadcast_effects msg l)) = true.
Proof.
  unfold broadcast_effects. simpl. unfold stamp. rewrite map_map.
  apply forallb_forall. intros e He. apply in_map_iff in He.
  destruct He as (ws & <- & Hws). apply filter_In in Hws.
  destruct Hws as [Hin Hopen]. unfold to_open_member. simpl.
  apply existsb_exists. exists ws. split; [exact Hin|].
  now rewrite Nat.eqb_refl, Hopen.
Qed.

Lemma handle_emitted (r : request) (w : world) :
  emitted w (snd (handle r w)) = [] \/
  exists m, emitted w (snd (handle r w))
            = stamp (now w) (broadcast_effects m (wss_clients w)).
Proof.
  destruct r as [|t c cat|b|i t c cat|i]; simpl.
  - left. apply emitted_refl.
  - unfold post_prompt. destruct (negb (truthy t) || negb (truthy c)); simpl.
    + left. apply emitted_refl.
    + destruct (insert_run _ _ _ _ _) as [[z d']|e]; simpl.
      * right. eexists. apply broadcast_set_db_emitted.
      * left. apply emitted_refl.
  - destruct b as [|l]; simpl; [left; apply emitted_refl|].
    destruct (insertMany _ _ _) as [d'|e]; simpl.
    + right. eexists. apply broadcast_set_db_emitted.
    + left. apply emitted_refl.
  - unfold put_prompt. destruct (update_run _ _ _ _ _ _) as [[n d']|e]; simpl.
    + destruct (n =? 0)%nat; simpl.
      * left. apply emitted_app. simpl. now rewrite app_nil_r.
      * right. eexists. apply broadcast_set_db_emitted.
    + left. apply emitted_refl.
  - right. eexists. apply broadcast_set_db_emitted.
Qed.

(** X16. No HTTP request touches a connection: the two registries, the
    clock and the timer are as before, and all a request can put on the
    wire are sends to members of [wss.clients] that are OPEN, never a ping
    and never a termination. *)
Theorem http_leaves_sockets_alone (r : request) (w : world) :
  let w' := snd (handle r w) in
  wss_clients w' = wss_clients w /\
  clients w' = clients w /\
  next_sock w' = next_sock w /\
  now w' = now w /\ next_beat w' = next_beat w /\
  forallb (to_open_member (wss_clients w)) (emitted w w') = true.
Proof.
  simpl. destruct (handle_quiet r w) as (Hn & Hb & Hc & Hk & Hs & _).
  do 5 (split; [assumption|]).
  destruct (handle_emitted r w) as [->|(m & ->)]; [reflexivity|].
  apply broadcast_effects_to_open.
Qed.

Lemma find_ws_none (c : nat) (l : list websocket) :
  find_ws c l = None <-> forall ws, In ws l -> sock ws <> c.
Proof.
  unfold find_ws. induction l as [|x l IH]; simpl.
  - split; [intros _ ws [] | reflexivity].
  - destruct (Nat.eqb_spec (sock x) c) as [E|E].
    + split; [discriminate|]. intros H. now destruct (H x (or_introl eq_refl)).
    + rewrite IH. split.
      * intros H ws [<-|Hin]; auto.
      * intros H ws Hin. apply H. now right.
Qed.

Lemma set_alive_fresh (c : nat) (b : bool) (l : list websocket) :
  Forall (fun ws => sock ws < c) l -> set_alive c b l = l.
Proof.
  intros H. unfold set_alive. induction l as [|ws l IH]; simpl; auto.
  inversion H as [|x xs Hlt Hrest]; subst.
  destruct (Nat.eqb_spec (sock ws) c); [lia|]. now rewrite IH.
Qed.

(** X17. Accepting a connection registers it and disturbs nothing else:
    the new socket joins [wss.clients] (OPEN, alive) and [clients] under a
    fresh identity, the sockets already there and the store are as before,
    and exactly one frame goes out, to the new socket alone: the
    [initial_data] snapshot with every record of the table. *)
Theorem on_connection_registers (w : world) :
  sockets_wf w ->
  let c := next_sock w in
  let w' := on_connection w in
  wss_clients w'
  = wss_clients w ++ [{| sock := c; readyState := OPEN; isAlive := true |}] /\
  clients w' = clients w ++ [c] /\
  find_ws c (wss_clients w) = None /\
  sockets_wf w' /\
  db w' = db w /\
  emitted w w'
  = stamp (now w)
      [Stringify (initial_data (select_all (db w)));
       Send c (JSON_stringify (initial_data (select_all (db w))))].
Proof.
  intros Hwf c w'. subst c w'. destruct Hwf as [Hnd Hlt].
  split.
  { change (wss_clients (on_connection w))
      with (set_alive (next_sock w) true
              (wss_clients w ++
               [{| sock := next_sock w; readyState := OPEN;
                   isAlive := false |}])).
    unfold set_alive at 1. rewrite map_app.
    fold (set_alive (next_sock w) true (wss_clients w)).
    rewrite (set_alive_fresh _ _ _ Hlt). simpl. now rewrite Nat.eqb_refl. }
  split; [reflexivity|]. split.
  { apply find_ws_none. intros ws Hin.
    rewrite Forall_forall in Hlt. specialize (Hlt ws Hin). lia. }
  split; [apply (sockets_wf_step WsConnect w); now split|].
  split; [reflexivity | apply on_connection_emitted].
Qed.

Lemma on_connection_registers_witness :
  let w := on_connection (startup empty_database) in
  sockets_wf w /\
  wss_clients (on_connection w)
  = [{| sock := 0; readyState := OPEN; isAlive := true |};
     {| sock := 1; readyState := OPEN; isAlive := true |}] /\
  clients (on_connection w) = [0; 1].
Proof.
  assert (Hwf : sockets_wf (on_connection (startup empty_database))).
  { split; simpl.
    - constructor; [simpl; tauto | constructor].
    - constructor; [apply Nat.lt_succ_diag_r | constructor]. }
  split; [exact Hwf|].
  pose proof (on_connection_registers
                (on_connection (startup empty_database)) Hwf) as H.
  split; [exact (proj1 H) | exact (proj1 (proj2 H))].
Defined.

Lemma unaddressed_nil (c : nat) : unaddressed c [].
Proof. intros t e []. Qed.

Lemma unaddressed_app (c : nat) (a b : list (N * effect)) :
  unaddressed c a -> unaddressed c b -> unaddressed c (a ++ b).
Proof.
  intros Ha Hb t e Hin. apply in_app_or in Hin.
  destruct Hin; [eapply Ha | eapply Hb]; eauto.
Qed.

Lemma to_open_unaddressed (c : nat) (l : list websocket)
    (es : list (N * effect)) :
  find_ws c l = None ->
  forallb (to_open_member l) es = true -> unaddressed c es.
Proof.
  intros Hnone H t e Hin Heq. rewrite forallb_forall in H.
  specialize (H _ Hin). unfold to_open_member in H. simpl in H.
  destruct e as [m|c' d|c'|c']; try discriminate.
  injection Heq as ->. apply existsb_exists in H.
  destruct H as (ws & Hws & Hb). apply andb_true_iff in Hb.
  destruct Hb as [Hs _]. apply Nat.eqb_eq in Hs.
  rewrite find_ws_none in Hnone. now apply (Hnone ws Hws).
Qed.

Lemma handle_log (r : request) (w : world) :
  log (snd (handle r w)) = log w ++ emitted w (snd (handle r w)) /\
  forallb (to_open_member (wss_clients w)) (emitted w (snd (handle r w)))
  = true.
Proof.
  destruct (handle_quiet r w) as (_ & _ & _ & _ & _ & es & Hl & _).
  split; [now rewrite (emitted_app _ _ _ Hl)|].
  destruct (handle_emitted r w) as [->|(m & ->)]; [reflexivity|].
  apply broadcast_effects_to_open.
Qed.

Lemma heartbeat_effects_unaddressed (c : nat) (t : N) (l : list websocket) :
  find_ws c l = None ->
  unaddressed c (stamp t (snd (heartbeat_each l))).
Proof.
  intros Hnone t' e Hin Heq. unfold stamp in Hin. apply in_map_iff in Hin.
  destruct Hin as (e' & E & Hin). injection E as _ ->.
  apply heartbeat_each_effects in Hin. destruct Hin as (x & Hx & _ & ->).
  rewrite find_ws_none in Hnone. apply (Hnone x Hx). now injection Heq.
Qed.

Lemma find_ws_heartbeat_none (c : nat) (l : list websocket) :
  find_ws c l = None -> find_ws c (fst (heartbeat_each l)) = None.
Proof.
  rewrite !find_ws_none. intros H ws Hin Hs.
  assert (Hc : In c (map sock (fst (heartbeat_each l)))).
  { rewrite <- Hs. now apply in_map. }
  rewrite heartbeat_each_socks in Hc. apply in_map_iff in Hc.
  destruct Hc as (y & Ey & Hy). now apply (H y Hy).
Qed.

Lemma gone_beat (c : nat) (w : world) :
  gone c w ->
  gone c (beat w) /\
  exists es, log (beat w) = log w ++ es /\ unaddressed c es.
Proof.
  intros (Hnone & Hcl & Hlt). split.
  - split; [|split; [exact Hcl | exact Hlt]].
    simpl. now apply find_ws_heartbeat_none.
  - eexists. split; [reflexivity|].
    now apply heartbeat_effects_unaddressed.
Qed.

Lemma gone_iter (c : nat) (k : nat) (w : world) :
  gone c w ->
  gone c (Nat.iter k beat w) /\
  exists es, log (Nat.iter k beat w) = log w ++ es /\ unaddressed c es.
Proof.
  intros H. induction k as [|k [IHg (es & IHl & IHu)]].
  - split; [exact H|]. exists []. simpl. rewrite app_nil_r.
    split; [reflexivity | apply unaddressed_nil].
  - change (Nat.iter (S k) beat w) with (beat (Nat.iter k beat w)).
    destruct (gone_beat c _ IHg) as (Hg & es' & Hl & Hu).
    split; [exact Hg|]. exists (es ++ es').
    rewrite Hl, IHl, app_assoc. split; [reflexivity|].
    now apply unaddressed_app.
Qed.

Lemma gone_step (c : nat) (i : input) (w : world) :
  gone c w ->
  gone c (step i w) /\
  exists es, log (step i w) = log w ++ es /\ unaddressed c es.
Proof.
  intros (Hnone & Hcl & Hlt).
  destruct i as [r| |c'|c'|c'|dt]; cbn [step].
  - destruct (handle_quiet r w) as (_ & _ & Hc & Hk & Hs & _).
    destruct (handle_log r w) as [Hl Ho].
    split; [unfold gone; now rewrite Hc, Hk, Hs|].
    eexists. split; [exact Hl|].
    eapply to_open_unaddressed; eauto.
  - split.
    + split; [|split].
      * simpl. unfold set_alive. rewrite find_ws_map.
        -- unfold find_ws in *. rewrite (find_app_none _ _ _ Hnone). simpl.
           destruct (Nat.eqb_spec (next_sock w) c); [lia | reflexivity].
        -- intros x. now destruct (sock x =? next_sock w)%nat.
      * simpl. intros Hin. apply in_app_or in Hin.
        destruct Hin as [Hin|[E|[]]]; [tauto | lia].
      * simpl. lia.
    + eexists. split; [reflexivity|]. intros t e Hin Heq.
      simpl in Hin. destruct Hin as [E|[E|[]]]; injection E as _ <-;
        [discriminate | injection Heq as E'; lia].
  - split.
    + split; [|split; assumption]. simpl. unfold set_alive.
      rewrite find_ws_map, Hnone; [reflexivity|].
      intros x. now destruct (sock x =? c')%nat.
    + exists []. simpl. rewrite app_nil_r.
      split; [reflexivity | apply unaddressed_nil].
  - split.
    + split; [|split; assumption]. simpl. unfold set_state.
      rewrite find_ws_map, Hnone; [reflexivity|].
      intros x. now destruct (sock x =? c')%nat.
    + exists []. simpl. rewrite app_nil_r.
      split; [reflexivity | apply unaddressed_nil].
  - split.
    + split; [|split].
      * simpl. apply find_ws_none. intros ws Hin. apply filter_In in Hin.
        rewrite find_ws_none in Hnone. apply Hnone. tauto.
      * simpl. intros Hin. apply filter_In in Hin. tauto.
      * exact Hlt.
    + exists []. simpl. rewrite app_nil_r.
      split; [reflexivity | apply unaddressed_nil].
  - unfold wait.
    destruct (gone_iter c (beats_due (next_beat w) (now w + dt)) w)
      as (Hg & es & Hl & Hu); [now repeat split|].
    split; [exact Hg|]. exists es. split; [exact Hl | exact Hu].
Qed.

Lemma gone_run (c : nat) (ins : list input) :
  forall w,
    gone c w ->
    gone c (run ins w) /\
    exists es, log (run ins w) = log w ++ es /\ unaddressed c es.
Proof.
  induction ins as [|i ins IH]; intros w H.
  - split; [exact H|]. exists []. simpl. rewrite app_nil_r.
    split; [reflexivity | apply unaddressed_nil].
  - rewrite run_cons. destruct (gone_step c i w H) as (Hg & es & Hl & Hu).
    destruct (IH _ Hg) as (Hg' & es' & Hl' & Hu').
    split; [exact Hg'|]. exists (es ++ es').
    rewrite Hl', Hl, app_assoc. split; [reflexivity|].
    now apply unaddressed_app.
Qed.

(** X18. A socket whose close event has been handled is out for good:
    whatever the server handles afterwards, it is in neither registry
    again, and no frame, ping or termination is ever addressed to it. *)
Theorem closed_socket_never_addressed
    (c : nat) (ins : list input) (w : world) :
  c < next_sock w ->
  let w0 := on_close c w in
  let w' := run ins w0 in
  find_ws c (wss_clients w') = None /\
  ~ In c (clients w') /\
  forall t e, In (t, e) (emitted w0 w') -> effect_sock e <> Some c.
Proof.
  intros Hlt. simpl.
  assert (H0 : gone c (on_close c w)).
  { split; [apply find_ws_filter_self|]. split; [|exact Hlt].
    simpl. intros Hin. apply filter_In in Hin. destruct Hin as [_ Hin].
    now rewrite Nat.eqb_refl in Hin. }
  destruct (gone_run c ins _ H0) as ((Hnone & Hcl & _) & es & Hl & Hu).
  rewrite (emitted_app _ _ _ Hl). auto.
Qed.

Lemma closed_socket_never_addressed_witness :
  let w := run [WsConnect; WsConnect] (startup empty_database) in
  let ins := [Http (DELETE_prompt (Some 1%Z)); Wait 30001; WsConnect;
              Wait 30000] in
  0 < next_sock w /\
  find_ws 0 (wss_clients (run ins (on_close 0 w))) = None /\
  map (fun e => effect_sock (snd e))
      (emitted (on_close 0 w) (run ins (on_close 0 w)))
  = [None; Some 1; None; Some 2; Some 1].
Proof.
  split; [vm_compute; lia|].
  split; [|reflexivity].
  exact (proj1 (closed_socket_never_addressed 0
                  [Http (DELETE_prompt (Some 1%Z)); Wait 30001; WsConnect;
                   Wait 30000]
                  (run [WsConnect; WsConnect] (startup empty_database))
                  ltac:(vm_compute; lia))).
Defined.

Lemma heartbeat_each_span (dead rest : list websocket) :
  Forall (fun ws => isAlive ws = false) dead ->
  (forall ws r, rest = ws :: r -> isAlive ws = true) ->
  heartbeat_each (dead ++ rest)
  = (map terminate dead ++
     match rest with
     | [] => []
     | ws :: r =>
         {| sock := sock ws; readyState := readyState ws; isAlive := false |}
         :: r
     end,
     map (fun ws => Terminate (sock ws)) dead).
Proof.
  intros Hdead Hrest. induction dead as [|d ds IH]; simpl.
  - destruct rest as [|ws r]; [reflexivity|]. simpl.
    unfold heartbeat_client, ping. now rewrite (Hrest ws r eq_refl).
  - inversion Hdead as [|x xs Hd Hds]; subst.
    unfold heartbeat_client. rewrite Hd. simpl. now rewrite (IH Hds).
Qed.

(** X19. One run of the heartbeat callback. The sockets not alive that
    come first in [wss.clients] are terminated; the first socket that is
    alive is flagged not alive and the [ping] for it throws, which ends the
    run: no ping frame is sent, and the sockets after it are neither
    flagged nor terminated in this run. The store and [clients] are
    untouched and no socket leaves [wss.clients]. *)
Theorem heartbeat_run (dead rest : list websocket) (w : world) :
  wss_clients w = dead ++ rest ->
  Forall (fun ws => isAlive ws = false) dead ->
  (forall ws r, rest = ws :: r -> isAlive ws = true) ->
  let w' := heartbeatInterval w in
  wss_clients w'
  = map terminate dead ++
    match rest with
    | [] => []
    | ws :: r =>
        {| sock := sock ws; readyState := readyState ws; isAlive := false |}
        :: r
    end /\
  emitted w w' = stamp (now w) (map (fun ws => Terminate (sock ws)) dead) /\
  map sock (wss_clients w') = map sock (wss_clients w) /\
  db w' = db w /\ clients w' = clients w.
Proof.
  intros Hl Hdead Hrest. simpl.
  pose proof (heartbeat_each_span dead rest Hdead Hrest) as Hspan.
  rewrite <- Hl in Hspan.
  split; [now rewrite Hspan|]. split.
  { apply emitted_app. simpl. now rewrite Hspan. }
  split; [apply heartbeat_each_socks|]. split; reflexivity.
Qed.

Lemma heartbeat_run_witness :
  let w := run [WsConnect; WsConnect; WsConnect; Wait 30001]
               (startup empty_database) in
  let dead := [{| sock := 0; readyState := OPEN; isAlive := false |}] in
  let rest := [{| sock := 1; readyState := OPEN; isAlive := true |};
               {| sock := 2; readyState := OPEN; isAlive := true |}] in
  wss_clients w = dead ++ rest /\
  Forall (fun ws => isAlive ws = false) dead /\
  (forall ws r, rest = ws :: r -> isAlive ws = true) /\
  wss_clients (heartbeatInterval w)
  = [{| sock := 0; readyState := CLOSING; isAlive := false |};
     {| sock := 1; readyState := OPEN; isAlive := false |};
     {| sock := 2; readyState := OPEN; isAlive := true |}] /\
  emitted w (heartbeatInterval w) = [(30001%N, Terminate 0)].
Proof.
  assert (Hd : Forall (fun ws => isAlive ws = false)
                      [{| sock := 0; readyState := OPEN; isAlive := false |}]).
  { constructor; [reflexivity | constructor]. }
  assert (Hr : forall ws r,
             [{| sock := 1; readyState := OPEN; isAlive := true |};
              {| sock := 2; readyState := OPEN; isAlive := true |}] = ws :: r ->
             isAlive ws = true).
  { intros ws r E. injection E as <- _. reflexivity. }
  split; [reflexivity|]. split; [exact Hd|]. split; [exact Hr|].
  pose proof (heartbeat_run
                [{| sock := 0; readyState := OPEN; isAlive := false |}]
                [{| sock := 1; readyState := OPEN; isAlive := true |};
                 {| sock := 2; readyState := OPEN; isAlive := true |}]
                (run [WsConnect; WsConnect; WsConnect; Wait 30001]
                     (startup empty_database)) eq_refl Hd Hr) as H.
  split; [exact (proj1 H) | exact (proj1 (proj2 H))].
Defined.

Lemma step_chatter (i : input) (w : world) :
  (forall dt, i <> Wait dt) ->
  exists es, log (step i w) = log w ++ es /\
             forall t e, In (t, e) es -> is_chatter e = true.
Proof.
  intros Hw. destruct i as [r| |c|c|c|dt]; cbn [step].
  - destruct (handle_quiet r w) as (_ & _ & _ & _ & _ & es & Hl & Hch).
    eexists. split; [exact Hl|]. intros t e Hin. unfold stamp in Hin.
    apply in_map_iff in Hin. destruct Hin as (e' & E & Hin).
    injection E as _ ->. rewrite forallb_forall in Hch. now apply Hch.
  - eexists. split; [reflexivity|]. intros t e Hin. simpl in Hin.
    destruct Hin as [E|[E|[]]]; injection E as _ <-; reflexivity.
  - exists []. simpl. rewrite app_nil_r. split; [reflexivity | intros t e []].
  - exists []. simpl. rewrite app_nil_r. split; [reflexivity | intros t e []].
  - exists []. simpl. rewrite app_nil_r. split; [reflexivity | intros t e []].
  - now destruct (Hw dt).
Qed.

Lemma on_the_beat_beat (w : world) : on_the_beat w -> on_the_beat (beat w).
Proof.
  intros [(k & Hk & Hnb) Hlog]. split.
  - exists (k + 1)%N. split; [lia|]. simpl. rewrite Hnb.
    unfold heartbeat_period. lia.
  - intros t e Hin Hch. simpl in Hin. apply in_app_or in Hin.
    destruct Hin as [Hin|Hin]; [now apply (Hlog t e)|].
    unfold stamp in Hin. apply in_map_iff in Hin.
    destruct Hin as (e' & E & _). injection E as <- _. eauto.
Qed.

Lemma on_the_beat_step (i : input) (w : world) :
  on_the_beat w -> on_the_beat (step i w).
Proof.
  intros H. destruct i as [r| |c|c|c|dt].
  6: { cbn [step]. unfold wait.
       assert (Hk : on_the_beat
                      (Nat.iter (beats_due (next_beat w) (now w + dt)) beat w)).
       { induction (beats_due (next_beat w) (now w + dt)) as [|k IH];
           [exact H|].
         change (Nat.iter (S k) beat w) with (beat (Nat.iter k beat w)).
         now apply on_the_beat_beat. }
       exact Hk. }
  all: destruct H as [Hnb Hlog];
       match goal with
       | |- on_the_beat (step ?j ?w0) =>
           destruct (step_clock j w0) as [_ Eb];
           [intros dt; discriminate|];
           destruct (step_chatter j w0) as (es & El & Ech);
           [intros dt; discriminate|];
           split; [rewrite Eb; exact Hnb|];
           intros t e Hin Hch; rewrite El in Hin; apply in_app_or in Hin;
           destruct Hin as [Hin|Hin]; [now apply (Hlog t e)|];
           apply Ech in Hin; congruence
       end.
Qed.

(** X20. The heartbeat keeps to its period: in every state reached from
    startup, each ping and each termination in the log was issued at a
    positive multiple of 30000 ms on the server's clock. *)
Theorem probes_on_the_beat
    (d : database) (ins : list input) (t : N) (e : effect) :
  In (t, e) (log (run ins (startup d))) ->
  is_chatter e = false ->
  exists k, (0 < k)%N /\ t = (k * heartbeat_period)%N.
Proof.
  assert (H : on_the_beat (run ins (startup d))).
  { assert (H0 : on_the_beat (startup d)).
    { split; [exists 1%N; split; [lia | reflexivity] | intros t' e' []]. }
    revert H0. generalize (startup d).
    induction ins as [|i ins IH]; intros w Hw; [exact Hw|].
    rewrite run_cons. now apply IH, on_the_beat_step. }
  intros Hin Hch. destruct H as [_ Hlog]. now apply (Hlog t e).
Qed.

Lemma probes_on_the_beat_witness :
  let ins := [Wait 12345; WsConnect; Wait 20000; Wait 40000] in
  In (60000%N, Terminate 0) (log (run ins (startup empty_database))) /\
  is_chatter (Terminate 0) = false /\
  exists k, (0 < k)%N /\ 60000%N = (k * heartbeat_period)%N.
Proof.
  assert (Hin : In (60000%N, Terminate 0)
                   (log (run [Wait 12345; WsConnect; Wait 20000; Wait 40000]
                             (startup empty_database)))).
  { vm_compute. tauto. }
  split; [exact Hin|]. split; [reflexivity|].
  exact (probes_on_the_beat empty_database
           [Wait 12345; WsConnect; Wait 20000; Wait 40000]
           60000 (Terminate 0) Hin eq_refl).
Defined.

Lemma reachable_wf_witness :
  let ins := [WsConnect; Http (POST_prompts (JString "T") (JString "C") JNull);
              Wait 30001; Http (DELETE_prompt (Some 2%Z)); WsClose 0;
              WsConnect] in
  db_wf empty_database /\
  db_wf (db (run ins (startup empty_database))) /\
  sockets_wf (run ins (startup empty_database)).
Proof.
  assert (H0 : db_wf empty_database) by (split; constructor).
  split; [exact H0|].
  exact (reachable_wf empty_database
           [WsConnect; Http (POST_prompts (JString "T") (JString "C") JNull);
            Wait 30001; Http (DELETE_prompt (Some 2%Z)); WsClose 0;
            WsConnect] H0).
Defined.

(** X22. A pong concerns its own socket only and protects it for one run:
    it sets that socket's flag, changes no other socket and sends nothing,
    and the next run of the heartbeat callback does not terminate the
    socket, whatever its flag was before. *)
Theorem pong_protects (c : nat) (ws : websocket) (w : world) :
  sockets_wf w ->
  find_ws c (wss_clients w) = Some ws ->
  let w1 := on_pong c w in
  find_ws c (wss_clients w1)
  = Some {| sock := c; readyState := readyState ws; isAlive := true |} /\
  (forall c', c' <> c ->
              find_ws c' (wss_clients w1) = find_ws c' (wss_clients w)) /\
  emitted w w1 = [] /\
  ~ In (now w1, Terminate c) (emitted w1 (heartbeatInterval w1)).
Proof.
  intros Hwf Hfind. simpl.
  destruct (find_ws_some _ _ _ Hfind) as [Hin Hsock].
  assert (Hf : forall x,
             sock (if (sock x =? c)%nat
                   then {| sock := sock x; readyState := readyState x;
                           isAlive := true |}
                   else x) = sock x).
  { intros x. now destruct (sock x =? c)%nat. }
  assert (H1 : find_ws c (set_alive c true (wss_clients w))
               = Some {| sock := c; readyState := readyState ws;
                         isAlive := true |}).
  { unfold set_alive. rewrite find_ws_map, Hfind by exact Hf.
    simpl. now rewrite Hsock, Nat.eqb_refl. }
  split; [exact H1|]. split.
  { intros c' Hne. unfold set_alive. rewrite find_ws_map by exact Hf.
    destruct (find_ws c' (wss_clients w)) as [x|] eqn:E; [|reflexivity].
    destruct (find_ws_some _ _ _ E) as [_ Hx]. simpl.
    destruct (Nat.eqb_spec (sock x) c); [congruence | reflexivity]. }
  split; [apply emitted_app; simpl; now rewrite app_nil_r|].
  pose proof (sockets_wf_step (WsPong c) w Hwf) as Hwf1. cbn [step] in Hwf1.
  destruct Hwf1 as [Hnd1 _].
  assert (Hem : emitted (on_pong c w) (heartbeatInterval (on_pong c w))
                = stamp (now (on_pong c w))
                    (snd (heartbeat_each (wss_clients (on_pong c w))))).
  { apply emitted_app. reflexivity. }
  fold (on_pong c w). rewrite Hem. intros Habs.
  unfold stamp in Habs. apply in_map_iff in Habs.
  destruct Habs as (e & E & He). injection E as ->.
  apply heartbeat_each_effects in He. destruct He as (x & Hx & Ea & Et).
  injection Et as Es.
  destruct (find_ws_some _ _ _ H1) as [Hin1 Hs1].
  assert (Ex : x = {| sock := c; readyState := readyState ws;
                      isAlive := true |}).
  { apply (socks_unique _ _ _ Hnd1 Hx Hin1). now rewrite <- Es. }
  subst x. discriminate.
Qed.

Lemma pong_protects_witness :
  let w := run [WsConnect; Wait 30001] (startup empty_database) in
  sockets_wf w /\
  find_ws 0 (wss_clients w)
  = Some {| sock := 0; readyState := OPEN; isAlive := false |} /\
  emitted w (heartbeatInterval w) = [(30001%N, Terminate 0)] /\
  ~ In (30001%N, Terminate 0)
       (emitted (on_pong 0 w) (heartbeatInterval (on_pong 0 w))).
Proof.
  assert (Hwf : sockets_wf (run [WsConnect; Wait 30001]
                                (startup empty_database))).
  { split; simpl.
    - constructor; [simpl; tauto | constructor].
    - constructor; [auto with arith | constructor]. }
  split; [exact Hwf|]. do 2 (split; [reflexivity|]).
  exact (proj2 (proj2 (proj2
           (pong_protects 0 _ (run [WsConnect; Wait 30001]
                                   (startup empty_database))
              Hwf eq_refl)))).
Defined.

(** ** The heartbeat as it runs *)

Lemma iter_beat_no_ping (k : nat) (w : world) :
  exists es, log (Nat.iter k beat w) = log w ++ es /\
             forall t c, ~ In (t, Ping c) es.
Proof.
  induction k as [|k (es & Hl & Hp)].
  - exists []. simpl. rewrite app_nil_r. split; [reflexivity | intros t c []].
  - change (Nat.iter (S k) beat w) with (beat (Nat.iter k beat w)).
    eexists (es ++ stamp _ (snd (heartbeat_each _))).
    split.
    + cbn [beat log heartbeatInterval set_wss_clients emit set_now now
           wss_clients]. rewrite Hl, <- app_assoc. reflexivity.
    + intros t c Hin. apply in_app_or in Hin.
      destruct Hin as [Hin|Hin]; [now apply (Hp t c)|].
      unfold stamp in Hin. apply in_map_iff in Hin.
      destruct Hin as (e & E & He). injection E as _ ->.
      apply heartbeat_each_effects in He.
      destruct He as (x & _ & _ & Habs). discriminate.
Qed.

Lemma step_no_ping (i : input) (w : world) :
  exists es, log (step i w) = log w ++ es /\
             forall t c, ~ In (t, Ping c) es.
Proof.
  destruct i as [r| |c0|c0|c0|dt].
  6: { cbn [step]. unfold wait. cbn [log set_now]. apply iter_beat_no_ping. }
  all: match goal with
       | |- context [step ?j ?w0] =>
           destruct (step_chatter j w0) as (es & El & Ech);
           [intros dt; discriminate|];
           exists es; split; [exact El|];
           intros t c Hin; apply Ech in Hin; discriminate
       end.
Qed.

(** The heartbeat never sends a probe: whatever the server handles, no ping
    frame is logged. *)
Lemma never_pings (ins : list input) :
  forall w t c, ~ In (t, Ping c) (emitted w (run ins w)).
Proof.
  assert (H : forall w, exists es, log (run ins w) = log w ++ es /\
                                   forall t c, ~ In (t, Ping c) es).
  { induction ins as [|i ins IH]; intros w.
    - exists []. simpl. rewrite app_nil_r.
      split; [reflexivity | intros t c []].
    - rewrite run_cons. destruct (step_no_ping i w) as (es & El & Ep).
      destruct (IH (step i w)) as (es' & El' & Ep').
      exists (es ++ es'). rewrite El', El, app_assoc.
      split; [reflexivity|]. intros t c Hin. apply in_app_or in Hin.
      destruct Hin; [eapply Ep | eapply Ep']; eauto. }
  intros w t c. destruct (H w) as (es & El & Ep).
  rewrite (emitted_app _ _ _ El). apply Ep.
Qed.

(** C7. A viewer that connects and stays connected is terminated by the
    second run of the heartbeat although it left no probe unanswered: the
    [ping] of the first run throws and sends no frame ([never_pings]), so
    no pong can come back, and the second run finds the flag still down.
    The claim has such a viewer never evicted. *)
Theorem responsive_viewer_terminated :
  let w := run [Wait 1000; WsConnect] (startup empty_database) in
  let w1 := run [Wait 30000] w in
  let w2 := run [Wait 30000] w1 in
  find_ws 0 (wss_clients w)
  = Some {| sock := 0; readyState := OPEN; isAlive := true |} /\
  emitted w w1 = [] /\
  find_ws 0 (wss_clients w1)
  = Some {| sock := 0; readyState := OPEN; isAlive := false |} /\
  emitted w1 w2 = [(60000%N, Terminate 0)] /\
  find_ws 0 (wss_clients w2)
  = Some {| sock := 0; readyState := CLOSING; isAlive := false |} /\
  forall t, ~ In (t, Ping 0) (log w2).
Proof.
  vm_compute. repeat split.
  intros t Hin.
  repeat (destruct Hin as [Hin|Hin]; [discriminate Hin|]). exact Hin.
Qed.

(** C8. Of two viewers that connect together and never send a pong, the
    second in [wss.clients] is terminated by the third run of the
    heartbeat, 89 seconds after it connected, not by the second: in each
    run the [ping] for the first alive socket throws and ends the
    [forEach], so the second viewer is flagged one run late. The claim has
    it evicted by the second run, less than two periods after it was last
    known alive. *)
Theorem second_viewer_evicted_late :
  let w := run [Wait 1000; WsConnect; WsConnect] (startup empty_database) in
  let w1 := run [Wait 30000] w in
  let w2 := run [Wait 30000] w1 in
  let w3 := run [WsClose 0; Wait 30000] w2 in
  now w = 1000%N /\
  map isAlive (wss_clients w) = [true; true] /\
  emitted w w1 = [] /\
  map isAlive (wss_clients w1) = [false; true] /\
  emitted w1 w2 = [(60000%N, Terminate 0)] /\
  find_ws 1 (wss_clients w2)
  = Some {| sock := 1; readyState := OPEN; isAlive := false |} /\
  emitted w2 w3 = [(90000%N, Terminate 1)] /\
  (now w + 2 * heartbeat_period <= 90000)%N.
Proof.
  vm_compute. repeat split. discriminate.
Qed.
